(** * Elixir tasks: a shallow embedding of [src/tasks/task.js]

    The [Task] class of the build layer is modelled over an explicit
    JavaScript store: task instances live in an object heap and are
    passed around by reference, the process-wide [Elixir] object and the
    host runtime ([gulp]) are fields of the world, and every call into an
    external collaborator (a user closure, the logger, [gulp.task]) is
    recorded as an event.  The notification helpers ([ucName],
    [onSuccess], [onError]) only build messages for the desktop notifier
    and are left out. *)

From Stdlib Require Import String Ascii List ZArith Lia DecimalString.
From stdpp Require Import base option list gmap strings.

(* stdpp freezes [String.append]; the proofs below compute with it. *)
#[local] Arguments String.append !s1 s2 : simpl nomatch.

(** ** JavaScript values *)

Definition ref := nat.
Definition FunId := nat.

(** The two process-wide objects handed to a task definition. *)
Inductive Global := ElixirPlugins | ElixirConfig.

(** Numbers are restricted to the integers and [NaN]: every other double
    is truthy, like a non-zero integer. *)
#[warnings="-register-all"]
Inductive Value :=
| VUndefined
| VNull
| VBool (b : bool)
| VNum (z : Z)
| VNaN
| VStr (s : string)
| VArr (elems : list Value)
| VObj (r : ref)
| VFun (f : FunId)
| VGlobal (g : Global).

(** [ToBoolean]: the falsy values are [undefined], [null], [false], [0],
    [NaN] and the empty string. *)
Definition truthy (v : Value) : bool :=
  match v with
  | VUndefined | VNull | VNaN => false
  | VBool b => b
  | VNum z => negb (z =? 0)%Z
  | VStr s => negb (String.eqb s "")
  | VArr _ | VObj _ | VFun _ | VGlobal _ => true
  end.

(** [a || b] *)
Definition js_or (a b : Value) : Value := if truthy a then a else b.

(** [Array.prototype.concat] with one argument: an array argument is
    spread, anything else is appended as a single element. *)
Definition array_concat (arr : list Value) (arg : Value) : list Value :=
  match arg with
  | VArr elems => arr ++ elems
  | v => arr ++ [v]
  end.

(** ** Strings *)

Definition newline : string := String (ascii_of_nat 10) EmptyString.

(** Number-to-string conversion of an array index. *)
Definition string_of_nat (n : nat) : string :=
  NilEmpty.string_of_uint (Nat.to_uint n).

Fixpoint starts_with (pat s : string) : bool :=
  match pat, s with
  | EmptyString, _ => true
  | String a pat', String b s' => Ascii.eqb a b && starts_with pat' s'
  | String _ _, EmptyString => false
  end.

Fixpoint string_drop (n : nat) (s : string) : string :=
  match n, s with
  | S n', String _ s' => string_drop n' s'
  | _, _ => s
  end.

(** [s.replace(pat, rep)] with a string pattern: only the first
    occurrence is replaced.  The replacement strings used by the code
    contain no [$], so they are inserted literally. *)
Fixpoint replace (pat rep s : string) : string :=
  if starts_with pat s
  then rep +:+ string_drop (String.length pat) s
  else match s with
       | EmptyString => EmptyString
       | String c s' => String c (replace pat rep s')
       end.

(** ** The data model *)

(** One side of a path pair; [basename] is the object's [name] field. *)
Record PathInfo := mkPathInfo
  { path : string; basename : string; baseDir : string }.

Record GulpPaths := mkGulpPaths { gp_src : PathInfo; gp_output : PathInfo }.

(** A task instance.  A field the constructor leaves unset reads as
    [undefined] ([VUndefined], [None]).  [gulpTask] and
    [registerWatchers] are not defined by [Task] itself: a subclass may
    supply them, and they are found through the prototype chain. *)
Record Task := mkTask
  { name : string;
    watchers : list Value;
    isComplete : bool;
    steps : list string;
    paths : option GulpPaths;
    src : option PathInfo;
    output : option PathInfo;
    definition : Value;
    category : Value;
    gulpTask : Value;
    registerWatchers : Value }.

Definition set_watchers (ws : list Value) (t : Task) : Task :=
  mkTask (name t) ws (isComplete t) (steps t) (paths t) (src t) (output t)
         (definition t) (category t) (gulpTask t) (registerWatchers t).

Definition set_isComplete (b : bool) (t : Task) : Task :=
  mkTask (name t) (watchers t) b (steps t) (paths t) (src t) (output t)
         (definition t) (category t) (gulpTask t) (registerWatchers t).

Definition set_steps (st : list string) (t : Task) : Task :=
  mkTask (name t) (watchers t) (isComplete t) st (paths t) (src t) (output t)
         (definition t) (category t) (gulpTask t) (registerWatchers t).

Definition set_definition (d : Value) (t : Task) : Task :=
  mkTask (name t) (watchers t) (isComplete t) (steps t) (paths t) (src t)
         (output t) d (category t) (gulpTask t) (registerWatchers t).

Definition set_category (c : Value) (t : Task) : Task :=
  mkTask (name t) (watchers t) (isComplete t) (steps t) (paths t) (src t)
         (output t) (definition t) c (gulpTask t) (registerWatchers t).

(** The methods a subclass of [Task] may add. *)
Record Class := mkClass { cls_gulpTask : Value; cls_registerWatchers : Value }.


(** [Elixir.config], as far as the task helpers read it. *)
Record Autoprefix := mkAutoprefix { enabled : Value; options : Value }.
Record Config := mkConfig { sourcemaps : Value; css_autoprefix : Autoprefix }.

(** The closure [toGulp] hands to [gulp.task]; it captures [name]. *)
Inductive GulpFn := RunTasksNamed (nm : string).

Record World := mkWorld
  { heap : list Task;                 (* allocated task instances *)
    tasks : list ref;                 (* Elixir.tasks *)
    config : Config;                  (* Elixir.config *)
    inProduction : Value;             (* Elixir.inProduction *)
    isRunningAllTasks : Value;        (* Elixir.isRunningAllTasks *)
    gulp_tasks : gmap string GulpFn;  (* gulp.tasks *)
    env_args : list string            (* gutils.env._ *) }.

Definition set_heap (h : list Task) (w : World) : World :=
  mkWorld h (tasks w) (config w) (inProduction w) (isRunningAllTasks w)
          (gulp_tasks w) (env_args w).

Definition set_tasks (ts : list ref) (w : World) : World :=
  mkWorld (heap w) ts (config w) (inProduction w) (isRunningAllTasks w)
          (gulp_tasks w) (env_args w).

Definition set_gulp_tasks (g : gmap string GulpFn) (w : World) : World :=
  mkWorld (heap w) (tasks w) (config w) (inProduction w) (isRunningAllTasks w)
          g (env_args w).

(** ** Effects *)

(** Calls that leave this file. *)
Inductive Event :=
| EvCall (f : FunId) (this : ref) (args : list Value)
| EvLogStatus (msg : Value)
| EvLogTask (r : ref) (summary : string)
| EvGulpTask (nm : string).

Inductive Exn :=
| TypeError
| Dangling                (* a reference outside the heap; unreachable from JS *)
| Thrown (v : Value).

Inductive Outcome (A : Type) :=
| Ret (a : A)
| Throw (e : Exn).
Arguments Ret {A} a.
Arguments Throw {A} e.

Record Res (A : Type) := mkRes
  { events : list Event; world : World; outcome : Outcome A }.
Arguments mkRes {A} events world outcome.
Arguments events {A} r.
Arguments world {A} r.
Arguments outcome {A} r.

(** State, exceptions and an event log. *)
Definition M (A : Type) : Type := World -> Res A.

Definition ret {A} (a : A) : M A := fun w => mkRes [] w (Ret a).

Definition bind {A B} (m : M A) (k : A -> M B) : M B :=
  fun w =>
    let r := m w in
    match outcome r with
    | Ret a =>
        let r' := k a (world r) in
        mkRes (events r ++ events r') (world r') (outcome r')
    | Throw e => mkRes (events r) (world r) (Throw e)
    end.

#[global] Instance M_ret : MRet M := @ret.
#[global] Instance M_bind : MBind M := fun A B k m => bind m k.

Definition throw {A} (e : Exn) : M A := fun w => mkRes [] w (Throw e).
Definition emit (ev : Event) : M unit := fun w => mkRes [ev] w (Ret tt).
Definition gets {A} (f : World -> A) : M A := fun w => mkRes [] w (Ret (f w)).
Definition modify (f : World -> World) : M unit :=
  fun w => mkRes [] (f w) (Ret tt).

(** Read the object a reference points to. *)
Definition get (r : ref) : M Task :=
  fun w => match heap w !! r with
           | Some t => mkRes [] w (Ret t)
           | None => mkRes [] w (Throw Dangling)
           end.

(** Assign to fields of the object a reference points to. *)
Definition update (r : ref) (f : Task -> Task) : M unit :=
  t ← get r; modify (fun w => set_heap (<[r := f t]> (heap w)) w).

(** [new]: allocate an instance and return its reference. *)
Definition alloc (t : Task) : M ref :=
  fun w => mkRes [] (set_heap (heap w ++ [t]) w) (Ret (length (heap w))).

(** [arr.forEach(f)] over a snapshot of the array. *)
Fixpoint forEach {A B} (f : A -> M B) (l : list A) : M unit :=
  match l with
  | [] => mret tt
  | x :: l' => f x;; forEach f l'
  end.

(** ** The [Task] class *)

(** [summary]'s callback: [(step, index) => `${++index}. ${step}`]. *)
Definition step_line (index : nat) (step : string) : string :=
  string_of_nat (S index) +:+ ". " +:+ step.

(** [steps.map(...).join('\n')] *)
Definition summary_of (st : list string) : string :=
  String.concat newline (imap step_line st).

(** What a pipeline helper returns: a pass-through transform
    ([map(function () {})]) or the stream built by an external plugin. *)
Inductive Stream :=
| PassThrough
| SourcemapsInit
| SourcemapsWrite (dir : string)
| Autoprefixer (opts : Value)
| Minifier (out : option PathInfo)
| Concat (file : string)
| Dest (dir : string).

(** [_.contains] and [_.intersection(array, other)] of underscore: the
    items of [array], without repetition, that [other] contains. *)
Definition contains (l : list string) (x : string) : bool :=
  existsb (String.eqb x) l.

Fixpoint intersection_go (result array other : list string) : list string :=
  match array with
  | [] => result
  | item :: rest =>
      if contains result item then intersection_go result rest other
      else if contains other item
           then intersection_go (result ++ [item]) rest other
           else intersection_go result rest other
  end.

Definition intersection (array other : list string) : list string :=
  intersection_go [] array other.

(** See if we should run all mixins for the given task name:
    [_.intersection(gutils.env._, [name, 'watch', 'tdd']).length]. *)
Definition shouldRunAllTasksWithName (args : list string) (nm : string) : nat :=
  length (intersection args [nm; "watch"; "tdd"]).

Section Program.

(** The bodies of the user's closures: what calling function [f] with a
    receiver and arguments does. *)
Variable code : FunId -> ref -> list Value -> M Value.

(** [fv.call(this, ...args)]; calling a non-function is a [TypeError]. *)
Definition call (fv : Value) (this : ref) (args : list Value) : M Value :=
  match fv with
  | VFun f => emit (EvCall f this args);; code f this args
  | _ => throw TypeError
  end.

(** Modelled from the spec: [Elixir.tasks] is the task registry, "an
    ordered collection of declared tasks, queryable by name, supporting
    run all with a given name and find first incomplete with a given
    name lookups"; its class is not part of the sources.  [push] appends,
    [byName] and [findIncompleteByName] filter in registry order. *)
Definition tasks_push (r : ref) : M unit :=
  modify (fun w => set_tasks (tasks w ++ [r]) w).

Definition has_name (h : list Task) (nm : string) (r : ref) : bool :=
  match h !! r with
  | Some t => String.eqb (name t) nm
  | None => false
  end.

Definition is_incomplete (h : list Task) (r : ref) : bool :=
  match h !! r with
  | Some t => negb (isComplete t)
  | None => false
  end.

Definition byName_of (w : World) (nm : string) : list ref :=
  List.filter (has_name (heap w) nm) (tasks w).

Definition findIncompleteByName_of (w : World) (nm : string) : list ref :=
  List.filter (is_incomplete (heap w)) (byName_of w nm).

Definition byName (nm : string) : M (list ref) :=
  gets (fun w => byName_of w nm).

Definition findIncompleteByName (nm : string) : M (list ref) :=
  gets (fun w => findIncompleteByName_of w nm).

(** Modelled from the spec: [Elixir.log] is the logger, not part of the
    sources; [run] "logs a summary of recorded steps" through
    [Elixir.log.task].  Both of its methods are recorded as events. *)
Definition log_status (message : Value) : M Value :=
  emit (EvLogStatus message);; mret VUndefined.

Definition log_task (r : ref) : M unit :=
  t ← get r; emit (EvLogTask r (summary_of (steps t))).

(** Modelled from the spec: [gulp.task(name, fn)] enters [fn] under
    [name] in the host runtime's task registry [gulp.tasks]. *)
Definition gulp_task (nm : string) (fn : GulpFn) : M unit :=
  emit (EvGulpTask nm);;
  modify (fun w => set_gulp_tasks (<[nm := fn]> (gulp_tasks w)) w).

(** [_.has(gulp.tasks, name)] *)
Definition has (g : gmap string GulpFn) (nm : string) : bool :=
  bool_decide (is_Some (g !! nm)).

(** Set the task to be called, when firing Gulp. *)
Definition register (this : ref) : M ref :=
  tasks_push this;; mret this.

(** Describe the task. This is the Gulp definition. *)
Definition describe (this : ref) (def : Value) : M ref :=
  update this (set_definition def);;
  register this.

(** The fields the constructor assigns before it looks at the
    description: [name], [watchers], [isComplete], [steps] and, when
    [paths] is given, [paths], [src] and [output]. *)
Definition fresh_task (cls : Class) (nm : string) (ps : option GulpPaths) : Task :=
  mkTask nm [] false [] ps (gp_src <$> ps) (gp_output <$> ps)
         VUndefined VUndefined (cls_gulpTask cls) (cls_registerWatchers cls).

(** Create a new Task instance, of class [cls]. *)
Definition constructor (cls : Class) (nm : string) (description : Value)
    (ps : option GulpPaths) : M ref :=
  this ← alloc (fresh_task cls nm ps);
  if truthy (cls_gulpTask cls) then describe this (cls_gulpTask cls);; mret this
  else if truthy description then describe this description;; mret this
  else mret this.

(** Set a path regex to watch for changes. *)
Definition watch (this : ref) (regex cat : Value) : M ref :=
  (if truthy regex
   then update this (fun t => set_watchers (array_concat (watchers t) regex) t)
   else mret tt);;
  update this (set_category (js_or cat (VStr "default")));;
  mret this.

(** Determine if the task has any watchers. *)
Definition hasWatchers (this : ref) : M bool :=
  t ← get this; mret (Nat.ltb 0 (length (watchers t))).

(** Exclude the given path from the watcher. *)
Definition ignore (this : ref) (p : string) : M ref :=
  update this (fun t =>
    set_watchers (watchers t ++ [VStr (replace "././" "./" ("!./" +:+ p))]) t);;
  mret this.

(** Record a step to the summary list. *)
Definition recordStep (this : ref) (message : string) : M unit :=
  update this (fun t => set_steps (steps t ++ [message]) t).

(** An ordered list of the actions that occurred for the task. *)
Definition summary (this : ref) : M string :=
  t ← get this; mret (summary_of (steps t)).

(** Log the task input and output. *)
Definition log (this : ref) (message : Value) : M Value :=
  if truthy message then log_status message
  else
    running ← gets isRunningAllTasks;
    (if negb (truthy running) then log_task this else mret tt);;
    mret VUndefined.

(** [this.registerWatchers && this.registerWatchers()] *)
Definition run_registerWatchers (this : ref) : M Value :=
  t ← get this;
  if truthy (registerWatchers t) then call (registerWatchers t) this []
  else mret (registerWatchers t).

(** Execute the task definition. *)
Definition run (this : ref) : M Value :=
  run_registerWatchers this;;
  t ← get this;
  def ← call (definition t) this [VGlobal ElixirPlugins; VGlobal ElixirConfig];
  update this (set_isComplete true);;
  log this VUndefined;;
  mret def.

(** Initialize the sourcemaps. *)
Definition initSourceMaps (this : ref) : M Stream :=
  cfg ← gets config;
  if negb (truthy (sourcemaps cfg)) then mret PassThrough
  else mret SourcemapsInit.

(** Write to the sourcemaps file. *)
Definition writeSourceMaps (this : ref) : M Stream :=
  cfg ← gets config;
  if negb (truthy (sourcemaps cfg)) then mret PassThrough
  else recordStep this "Writing Source Maps";; mret (SourcemapsWrite ".").

(** Apply CSS auto-prefixing. *)
Definition autoPrefix (this : ref) : M Stream :=
  cfg ← gets config;
  if negb (truthy (enabled (css_autoprefix cfg))) then mret PassThrough
  else recordStep this "Autoprefixing CSS";;
       cfg ← gets config;
       mret (Autoprefixer (options (css_autoprefix cfg))).

(** Minify the relevant CSS or JS files. *)
Definition minify (this : ref) : M Stream :=
  prod ← gets inProduction;
  if negb (truthy prod) then mret PassThrough
  else recordStep this "Applying Minification";;
       t ← get this;
       mret (Minifier (output t)).

(** Apply concatenation to the incoming stream. *)
Definition concat (this : ref) : M Stream :=
  recordStep this "Concatenating Files";;
  t ← get this;
  match output t with
  | Some out => mret (Concat (basename out))
  | None => throw TypeError
  end.

(** Set the destination path. *)
Definition saveAs (this : ref) : M Stream :=
  recordStep this "Saving to Destination";;
  t ← get this;
  match output t with
  | Some out => mret (Dest (baseDir out))
  | None => throw TypeError
  end.

(** The body of the closure registered by [toGulp]. *)
Definition invoke (fn : GulpFn) : M Value :=
  match fn with
  | RunTasksNamed nm =>
      args ← gets env_args;
      if negb (Nat.eqb (shouldRunAllTasksWithName args nm) 0)
      then ts ← byName nm; forEach run ts;; mret VUndefined
      else ts ← findIncompleteByName nm;
           match ts with
           | first :: _ => run first
           | [] => throw TypeError
           end
  end.

(** Translate the task instance to a registered Gulp task. *)
Definition toGulp (this : ref) : M unit :=
  t ← get this;
  let nm := name t in
  g ← gets gulp_tasks;
  if has g nm then mret tt
  else gulp_task nm (RunTasksNamed nm).

End Program.

(** ** Reference statements and sample inputs *)

(** The fields no mutator of the setup phase may touch. *)
Definition core_unchanged (t t' : Task) : Prop :=
  name t' = name t /\ isComplete t' = isComplete t /\ paths t' = paths t /\
  src t' = src t /\ output t' = output t /\ definition t' = definition t.

(** [s'] is [s] with its first occurrence of [pat], if there is one,
    replaced by [rep]. *)
Definition first_replaced (pat rep s s' : string) : Prop :=
  (exists a b,
      s = a +:+ pat +:+ b /\
      (forall a' b', s = a' +:+ pat +:+ b' -> String.length a <= String.length a') /\
      s' = a +:+ rep +:+ b) \/
  ((forall a b, s <> a +:+ pat +:+ b) /\ s' = s).

(** The exclusion pattern as the specification words it: ['!./' + p]
    with a single leading ['././'] collapsed to ['./']. *)
Definition leading_collapsed (p : string) : string :=
  let s := "!./" +:+ p in
  if starts_with "!././" s then "!./" +:+ string_drop 5 s else s.

(** The tasks of [rs] can be run one after the other, each run
    returning: from [w] the runs emit [evs] and end in [w']. *)
Inductive runs_return (code : FunId -> ref -> list Value -> M Value) :
  list ref -> World -> list Event -> World -> Prop :=
| runs_return_nil w : runs_return code [] w [] w
| runs_return_cons r rs w evs w1 v evs' w2 :
    run code r w = mkRes evs w1 (Ret v) ->
    runs_return code rs w1 evs' w2 ->
    runs_return code (r :: rs) w (evs ++ evs') w2.

(** The calls of the definitions [fs] of the tasks [rs], one per task. *)
Definition definition_calls (fs : list FunId) (rs : list ref) : list Event :=
  zip_with (fun f r => EvCall f r [VGlobal ElixirPlugins; VGlobal ElixirConfig])
           fs rs.

(** How often [gulp.task] was called for the name [nm]. *)
Definition registers (nm : string) (ev : Event) : bool :=
  match ev with
  | EvGulpTask n => String.eqb n nm
  | _ => false
  end.

Definition registrations (nm : string) (evs : list Event) : nat :=
  length (List.filter (registers nm) evs).

(** A closure table whose function [0] is a task definition: it records
    a step on its receiver and returns a stream object. *)
Definition sample_code : FunId -> ref -> list Value -> M Value :=
  fun f this _ =>
    match f with
    | 0 => recordStep this "Compiling Sass";; mret (VObj 100)
    | _ => mret VUndefined
    end.

(** The events that are calls of a closure. *)
Definition is_call (ev : Event) : bool :=
  match ev with
  | EvCall _ _ _ => true
  | _ => false
  end.

Definition sample_paths : GulpPaths :=
  mkGulpPaths (mkPathInfo "resources/sass/app.scss" "app.scss" "resources/sass")
              (mkPathInfo "public/css/app.css" "app.css" "public/css").

Definition sample_task : Task :=
  mkTask "sass" [] false [] (Some sample_paths) (Some (gp_src sample_paths))
         (Some (gp_output sample_paths)) (VFun 0) VUndefined
         VUndefined VUndefined.

(** The same task after a run that recorded two steps. *)
Definition sample_task_run : Task :=
  set_isComplete true
    (set_steps ["Compiling Sass"; "Saving to Destination"] sample_task).

Definition sample_config : Config :=
  mkConfig (VBool true) (mkAutoprefix (VBool true) VUndefined).

Definition sample_world : World :=
  mkWorld [sample_task] [0] sample_config (VBool false) (VBool false) ∅ [].

(** Two instances that share the name ['sass']. *)
Definition sample_world_two : World :=
  set_tasks [0; 1] (set_heap [sample_task; sample_task] sample_world).


(** [gulp watch] over the two instances. *)
Definition sample_world_watch : World :=
  mkWorld [sample_task; sample_task] [0; 1] sample_config (VBool false)
          (VBool true) ∅ ["watch"].

Definition sample_world_run : World :=
  set_heap [sample_task_run] sample_world.

(** ** The remaining methods and further sample inputs *)

(** [toUpperCase] on the ASCII range, where it moves ['a'..'z'] to
    ['A'..'Z'] and fixes every other character.  Strings are sequences of
    bytes here, so the properties of [ucName] are stated for names whose
    first character is ASCII. *)
Definition upper (c : ascii) : ascii :=
  let n := nat_of_ascii c in
  if (97 <=? n) && (n <=? 122) then ascii_of_nat (n - 32) else c.

Fixpoint toUpperCase (s : string) : string :=
  match s with
  | EmptyString => EmptyString
  | String c s' => String (upper c) (toUpperCase s')
  end.

(** [nm.substr(0,1).toUpperCase() + nm.substr(1)] *)
Definition ucName_of (nm : string) : string :=
  toUpperCase (String.substring 0 1 nm) +:+ string_drop 1 nm.

(** Get the "ucwords" version of the task name. *)
Definition ucName (this : ref) : M string :=
  t ← get this; mret (ucName_of (name t)).

(** Whether [pat] occurs somewhere in [s]. *)
Fixpoint occurs (pat s : string) : bool :=
  starts_with pat s ||
  match s with
  | EmptyString => false
  | String _ s' => occurs pat s'
  end.

(** What [watch(regex, _)] adds to the watchers. *)
Definition watched (regex : Value) : list Value :=
  if truthy regex
  then match regex with VArr elems => elems | v => [v] end
  else [].

(** [t'] is [t] with at most one step added at the end and nothing else
    changed. *)
Definition steps_extended (t t' : Task) : Prop :=
  core_unchanged t t' /\ watchers t' = watchers t /\ category t' = category t /\
  (steps t' = steps t \/ exists msg, steps t' = steps t ++ [msg]).

(** A closure table: function [0] is a task definition that records a
    step and returns, function [1] one that records a step and then
    throws, function [2] a watcher hook that throws. *)
Definition failing_code : FunId -> ref -> list Value -> M Value :=
  fun f this _ =>
    match f with
    | 0 => recordStep this "Compiling Sass";; mret (VObj 100)
    | 1 => recordStep this "Compiling Sass";; throw (Thrown (VStr "syntax error"))
    | _ => throw (Thrown (VStr "no watcher"))
    end.

(** A task whose definition throws. *)
Definition failing_task : Task :=
  mkTask "sass" [] false [] None None None (VFun 1) VUndefined
         VUndefined VUndefined.

(** An instance of a subclass whose watcher hook throws. *)
Definition hooked_task : Task :=
  mkTask "sass" [] false [] None None None (VFun 0) VUndefined
         VUndefined (VFun 2).

Definition failing_world : World :=
  mkWorld [failing_task; hooked_task] [0; 1] sample_config (VBool false)
          (VBool false) ∅ [].

(** [gulp watch] over a failing task followed by a sound one. *)
Definition failing_world_watch : World :=
  mkWorld [failing_task; sample_task] [0; 1] sample_config (VBool false)
          (VBool true) ∅ ["watch"].

(** A task declared without a path pair. *)
Definition pathless_task : Task :=
  mkTask "copy" [] false [] None None None (VFun 0) VUndefined
         VUndefined VUndefined.

Definition pathless_world : World :=
  mkWorld [pathless_task] [0] sample_config (VBool true) (VBool false) ∅ [].

(** * Properties *)

(** ** Running monadic code *)

Lemma bind_Ret {A B} (m : M A) (k : A -> M B) w evs w1 a :
  m w = mkRes evs w1 (Ret a) ->
  (m ≫= k) w = mkRes (evs ++ events (k a w1)) (world (k a w1))
                     (outcome (k a w1)).
Proof. intros Hm. unfold mbind, M_bind, bind. rewrite Hm. reflexivity. Qed.

Lemma bind_Throw {A B} (m : M A) (k : A -> M B) w evs w1 e :
  m w = mkRes evs w1 (Throw e) ->
  (m ≫= k) w = mkRes evs w1 (Throw e).
Proof. intros Hm. unfold mbind, M_bind, bind. rewrite Hm. reflexivity. Qed.

Lemma Res_eta {A} (r : Res A) : mkRes (events r) (world r) (outcome r) = r.
Proof. destruct r; reflexivity. Qed.

Lemma get_Some r w t : heap w !! r = Some t -> get r w = mkRes [] w (Ret t).
Proof. intros H. unfold get. rewrite H. reflexivity. Qed.

Lemma get_None r w : heap w !! r = None -> get r w = mkRes [] w (Throw Dangling).
Proof. intros H. unfold get. rewrite H. reflexivity. Qed.

Lemma update_Some r f w t :
  heap w !! r = Some t ->
  update r f w = mkRes [] (set_heap (<[r := f t]> (heap w)) w) (Ret tt).
Proof.
  intros H. unfold update. rewrite (bind_Ret _ _ _ _ _ _ (get_Some _ _ _ H)).
  reflexivity.
Qed.

Lemma update_None r f w :
  heap w !! r = None -> update r f w = mkRes [] w (Throw Dangling).
Proof.
  intros H. unfold update. now rewrite (bind_Throw _ _ _ _ _ _ (get_None _ _ H)).
Qed.

Lemma lookup_updated (h : list Task) r t t' :
  h !! r = Some t -> <[r := t']> h !! r = Some t'.
Proof.
  intros H. apply list_lookup_insert_eq. now apply lookup_lt_Some in H.
Qed.

(** What [recordStep] does to an allocated task. *)
Lemma recordStep_Some r msg w t :
  heap w !! r = Some t ->
  recordStep r msg w =
  mkRes [] (set_heap (<[r := set_steps (steps t ++ [msg]) t]> (heap w)) w)
        (Ret tt).
Proof. intros H. unfold recordStep. now rewrite (update_Some _ _ _ _ H). Qed.

(** What [watch] does to an allocated task. *)
Lemma watch_Some r regex cat w t :
  heap w !! r = Some t ->
  watch r regex cat w =
  mkRes []
    (set_heap
       (<[r := set_category (js_or cat (VStr "default"))
                 (if truthy regex
                  then set_watchers (array_concat (watchers t) regex) t
                  else t)]> (heap w)) w)
    (Ret r).
Proof.
  intros H. unfold watch. destruct (truthy regex).
  - rewrite (bind_Ret _ _ _ _ _ _ (update_Some _ _ _ _ H)).
    assert (H1 := lookup_updated _ _ _
                    (set_watchers (array_concat (watchers t) regex) t) H).
    rewrite (bind_Ret _ _ _ _ _ _ (update_Some _ _ (set_heap _ w) _ H1)).
    cbn. now rewrite list_insert_insert_eq.
  - unfold mret at 1, M_ret at 1, mbind at 1, M_bind at 1, bind, ret. cbn.
    now rewrite (bind_Ret _ _ _ _ _ _ (update_Some _ _ _ _ H)).
Qed.

(** What [ignore] does to an allocated task. *)
Lemma ignore_Some r p w t :
  heap w !! r = Some t ->
  ignore r p w =
  mkRes []
    (set_heap
       (<[r := set_watchers
                 (watchers t ++ [VStr (replace "././" "./" ("!./" +:+ p))]) t]>
          (heap w)) w)
    (Ret r).
Proof.
  intros H. unfold ignore.
  now rewrite (bind_Ret _ _ _ _ _ _ (update_Some _ _ _ _ H)).
Qed.

(** ** [watch], [ignore] and [recordStep] *)

(** C6: after [watch(regex, category)] with an absent ([undefined]),
    [null] or otherwise falsy category the task's category is
    ['default']; with a truthy category it is that value. *)
Theorem watch_category_default w r t regex cat :
  heap w !! r = Some t ->
  exists t',
    heap (world (watch r regex cat w)) !! r = Some t' /\
    (cat = VUndefined \/ cat = VNull \/ truthy cat = false ->
     category t' = VStr "default") /\
    (truthy cat = true -> category t' = cat).
Proof.
  intros H. rewrite (watch_Some _ _ _ _ _ H). cbn.
  eexists. split; [eapply lookup_updated, H|].
  unfold js_or. split.
  - intros [-> | [-> | ->]]; reflexivity.
  - intros ->. reflexivity.
Qed.

Lemma watch_category_default_witness :
  heap sample_world !! 0 = Some sample_task /\
  exists t',
    heap (world (watch 0 (VStr "**/*.scss") VNull sample_world)) !! 0 = Some t' /\
    (VNull = VUndefined \/ VNull = VNull \/ truthy VNull = false ->
     category t' = VStr "default") /\
    (truthy VNull = true -> category t' = VNull).
Proof.
  split; [reflexivity|].
  apply (watch_category_default sample_world 0 sample_task); reflexivity.
Defined.

(** C8: [watch] assigns only [watchers] and [category], [ignore] only
    [watchers] (one more pattern) and [recordStep] only [steps] (one more
    entry); [name], [isComplete], [paths], [src], [output] and
    [definition] are the same after any of the three calls, as are all
    other objects and the process-wide state. *)
Theorem mutators_frame w r t :
  heap w !! r = Some t ->
  (forall regex cat, exists t',
      world (watch r regex cat w) = set_heap (<[r := t']> (heap w)) w /\
      core_unchanged t t' /\ steps t' = steps t) /\
  (forall p, exists t' pat,
      world (ignore r p w) = set_heap (<[r := t']> (heap w)) w /\
      core_unchanged t t' /\ steps t' = steps t /\
      category t' = category t /\ watchers t' = (watchers t ++ [pat])%list) /\
  (forall msg, exists t',
      world (recordStep r msg w) = set_heap (<[r := t']> (heap w)) w /\
      core_unchanged t t' /\ watchers t' = watchers t /\
      category t' = category t /\ steps t' = (steps t ++ [msg])%list).
Proof.
  intros H. repeat split.
  - intros regex cat. rewrite (watch_Some _ _ _ _ _ H). cbn.
    eexists. split; [reflexivity|].
    destruct (truthy regex); repeat split.
  - intros p. rewrite (ignore_Some _ _ _ _ H). cbn.
    do 2 eexists. split; [reflexivity|]. repeat split.
  - intros msg. rewrite (recordStep_Some _ _ _ _ H). cbn.
    eexists. split; [reflexivity|]. repeat split.
Qed.

Lemma mutators_frame_witness :
  heap sample_world !! 0 = Some sample_task /\
  exists t',
    world (recordStep 0 "Compiling" sample_world)
    = set_heap (<[0 := t']> (heap sample_world)) sample_world /\
    core_unchanged sample_task t' /\ watchers t' = watchers sample_task /\
    category t' = category sample_task /\
    steps t' = (steps sample_task ++ ["Compiling"])%list.
Proof.
  split; [reflexivity|].
  apply (mutators_frame sample_world 0 sample_task); reflexivity.
Defined.

(** ** String replacement *)

Lemma append_assoc (a b c : string) : (a +:+ b) +:+ c = a +:+ (b +:+ c).
Proof. induction a as [|x a IH]; cbn; [reflexivity | now rewrite IH]. Qed.

Lemma length_append (a b : string) :
  String.length (a +:+ b) = String.length a + String.length b.
Proof. induction a as [|x a IH]; cbn; [reflexivity | now rewrite IH]. Qed.

Lemma starts_with_append pat b : starts_with pat (pat +:+ b) = true.
Proof.
  induction pat as [|x pat IH]; cbn; [reflexivity|].
  now rewrite Ascii.eqb_refl, IH.
Qed.

Lemma starts_with_inv pat s :
  starts_with pat s = true -> s = pat +:+ string_drop (String.length pat) s.
Proof.
  revert s. induction pat as [|x pat IH]; intros s H; cbn; [now destruct s|].
  destruct s as [|y s]; cbn in H; [discriminate|].
  apply andb_true_iff in H as [Hxy Hs]. apply Ascii.eqb_eq in Hxy as ->.
  cbn. f_equal. now apply IH.
Qed.

Lemma string_drop_append pat b : string_drop (String.length pat) (pat +:+ b) = b.
Proof. induction pat as [|x pat IH]; cbn; [now destruct b | exact IH]. Qed.

Lemma replace_here pat rep s :
  starts_with pat s = true ->
  replace pat rep s = rep +:+ string_drop (String.length pat) s.
Proof. intros H. destruct s; cbn; now rewrite H. Qed.

Lemma replace_later pat rep c s :
  starts_with pat (String c s) = false ->
  replace pat rep (String c s) = String c (replace pat rep s).
Proof. intros H. cbn [replace]. now rewrite H. Qed.

(** [replace] rewrites the first occurrence of the pattern and nothing
    else. *)
Lemma replace_first_replaced pat rep s :
  first_replaced pat rep s (replace pat rep s).
Proof.
  induction s as [|c s IH].
  - destruct (starts_with pat "") eqn:Hp.
    + left. exists "", (string_drop (String.length pat) "").
      split; [exact (starts_with_inv _ _ Hp)|]. split; [cbn; lia|].
      now rewrite (replace_here _ _ _ Hp).
    + right. split; [|cbn; now rewrite Hp].
      intros a b Hab. destruct a; [|discriminate].
      cbn in Hab. rewrite Hab, starts_with_append in Hp. discriminate.
  - destruct (starts_with pat (String c s)) eqn:Hp.
    + left. exists "", (string_drop (String.length pat) (String c s)).
      split; [exact (starts_with_inv _ _ Hp)|]. split; [cbn; lia|].
      now rewrite (replace_here _ _ _ Hp).
    + rewrite (replace_later _ _ _ _ Hp).
      assert (Hhead : forall a b, String c s = a +:+ pat +:+ b ->
                exists a', a = String c a' /\ s = a' +:+ pat +:+ b).
      { intros a b Hab. destruct a as [|x a].
        - cbn in Hab. rewrite Hab, starts_with_append in Hp. discriminate.
        - cbn in Hab. injection Hab as -> ->. now exists a. }
      destruct IH as [(a & b & Hs & Hmin & Hr) | [Hnone Hr]].
      * left. exists (String c a), b. repeat split.
        -- cbn. now rewrite <- Hs.
        -- intros a' b' Hab. destruct (Hhead _ _ Hab) as (a'' & -> & Hs').
           cbn. apply le_n_S. eapply Hmin, Hs'.
        -- cbn. now rewrite Hr.
      * right. split; [|now rewrite Hr].
        intros a b Hab. destruct (Hhead _ _ Hab) as (a' & _ & Hs').
        exact (Hnone _ _ Hs').
Qed.

(** The pattern [ignore] builds, by the shape of the path. *)
Lemma ignore_pattern_dot_slash p :
  starts_with "./" p = true ->
  replace "././" "./" ("!./" +:+ p) = "!" +:+ p.
Proof.
  intros H. rewrite (starts_with_inv _ _ H). cbn.
  now destruct (string_drop 2 p).
Qed.

Lemma ignore_pattern_other p :
  starts_with "./" p = false ->
  replace "././" "./" ("!./" +:+ p) = "!./" +:+ replace "././" "./" p.
Proof.
  intros H. change ("!./" +:+ p) with (String "!" (String "." (String "/" p))).
  assert (H' : starts_with "././" (String "." (String "/" p)) = false)
    by exact H.
  rewrite replace_later by reflexivity.
  rewrite (replace_later _ _ _ _ H').
  rewrite replace_later by reflexivity.
  reflexivity.
Qed.

(** C10, as stated, fails: the replacement is not tied to the front of
    the pattern.  For the path ["a/././b"] the code collapses the inner
    ['././'] and appends ['!./a/./b'], where the statement leaves the
    path as it is. *)
Lemma ignore_collapses_inner_occurrence :
  ~ (forall t',
        heap (world (ignore 0 "a/././b" sample_world)) !! 0 = Some t' ->
        watchers t'
        = (watchers sample_task ++ [VStr (leading_collapsed "a/././b")])%list).
Proof.
  intros Hclaim. specialize (Hclaim _ eq_refl). vm_compute in Hclaim.
  discriminate Hclaim.
Qed.

(** C10 (amended): [ignore(p)] appends exactly one pattern, ['!./' + p]
    with its first occurrence of ['././'] replaced by ['./']: for a path
    that starts with ['./'] this is ['!' + p], otherwise the first
    ['././'] inside [p] itself is the one collapsed.  The pattern starts
    with ['!'], the call returns the task, and [hasWatchers()] is true
    afterwards. *)
Theorem ignore_appends_exclusion w r t p :
  heap w !! r = Some t ->
  exists pat,
    ignore r p w
    = mkRes [] (set_heap (<[r := set_watchers (watchers t ++ [VStr pat]) t]>
                            (heap w)) w) (Ret r) /\
    first_replaced "././" "./" ("!./" +:+ p) pat /\
    (starts_with "./" p = true -> pat = "!" +:+ p) /\
    (starts_with "./" p = false ->
     exists q, first_replaced "././" "./" p q /\ pat = "!./" +:+ q) /\
    starts_with "!" pat = true /\
    outcome (hasWatchers r (world (ignore r p w))) = Ret true.
Proof.
  intros H. exists (replace "././" "./" ("!./" +:+ p)).
  rewrite (ignore_Some _ _ _ _ H). split; [reflexivity|].
  split; [apply replace_first_replaced|].
  split; [apply ignore_pattern_dot_slash|].
  split.
  { intros Hp. exists (replace "././" "./" p).
    split; [apply replace_first_replaced | now apply ignore_pattern_other]. }
  split.
  { destruct (starts_with "./" p) eqn:Hp.
    - now rewrite (ignore_pattern_dot_slash _ Hp).
    - now rewrite (ignore_pattern_other _ Hp). }
  cbn [world]. unfold hasWatchers.
  erewrite bind_Ret by (apply get_Some; cbn; eapply lookup_updated, H).
  cbn. now rewrite length_app, Nat.add_comm.
Qed.

Lemma ignore_appends_exclusion_witness :
  heap sample_world !! 0 = Some sample_task /\
  exists pat,
    ignore 0 "./node_modules" sample_world
    = mkRes [] (set_heap (<[0 := set_watchers
                                   (watchers sample_task ++ [VStr pat])
                                   sample_task]>
                            (heap sample_world)) sample_world) (Ret 0) /\
    first_replaced "././" "./" ("!./" +:+ "./node_modules") pat /\
    (starts_with "./" "./node_modules" = true -> pat = "!" +:+ "./node_modules") /\
    (starts_with "./" "./node_modules" = false ->
     exists q, first_replaced "././" "./" "./node_modules" q /\
               pat = "!./" +:+ q) /\
    starts_with "!" pat = true /\
    outcome (hasWatchers 0 (world (ignore 0 "./node_modules" sample_world)))
    = Ret true.
Proof.
  split; [reflexivity|].
  apply (ignore_appends_exclusion sample_world 0 sample_task); reflexivity.
Defined.

(** The two examples of the statement. *)
Example ignore_dot_slash_foo :
  replace "././" "./" ("!./" +:+ "./foo") = "!./foo".
Proof. reflexivity. Qed.

Example ignore_foo : replace "././" "./" ("!./" +:+ "foo") = "!./foo".
Proof. reflexivity. Qed.

(** ** [summary] *)

Lemma summary_Some r w t :
  heap w !! r = Some t -> summary r w = mkRes [] w (Ret (summary_of (steps t))).
Proof.
  intros H. unfold summary. now rewrite (bind_Ret _ _ _ _ _ _ (get_Some _ _ _ H)).
Qed.

Lemma concat_snoc sep (l : list string) x :
  String.concat sep (l ++ [x]) =
  match l with
  | [] => x
  | _ :: _ => String.concat sep l +:+ sep +:+ x
  end.
Proof.
  induction l as [|y l IH]; [reflexivity|].
  destruct l as [|z l]; [reflexivity|].
  change (String.concat sep ((y :: z :: l) ++ [x]))
    with (y +:+ sep +:+ String.concat sep ((z :: l) ++ [x])).
  rewrite IH.
  change (String.concat sep (y :: z :: l))
    with (y +:+ sep +:+ String.concat sep (z :: l)).
  now rewrite !append_assoc.
Qed.

(** Recording one more step adds one line, numbered with the new length,
    at the end of the summary. *)
Lemma summary_of_snoc (st : list string) msg :
  summary_of (st ++ [msg]) =
  match st with
  | [] => "1. " +:+ msg
  | _ :: _ => summary_of st +:+ newline
              +:+ string_of_nat (S (length st)) +:+ ". " +:+ msg
  end.
Proof.
  unfold summary_of. rewrite imap_app. cbn [imap]. rewrite concat_snoc.
  rewrite Nat.add_0_r. destruct st; reflexivity.
Qed.

Example string_of_nat_12 : string_of_nat 12 = "12".
Proof. reflexivity. Qed.

Example summary_of_two :
  summary_of ["Compiling Sass"; "Saving to Destination"]
  = "1. Compiling Sass" +:+ newline +:+ "2. Saving to Destination".
Proof. reflexivity. Qed.

(** C7: [summary()] returns the recorded steps in the order they were
    recorded, one line per step, the line of the step at position [i]
    being its 1-based index [i + 1], then ['. '], then the step; the lines
    are joined by newline characters, and the call leaves the steps (and
    everything else) as they were. *)
Theorem summary_numbers_steps_in_order w r t :
  heap w !! r = Some t ->
  exists lines : list string,
    summary r w = mkRes [] w (Ret (String.concat newline lines)) /\
    length lines = length (steps t) /\
    (forall i step,
        steps t !! i = Some step ->
        lines !! i = Some (string_of_nat (i + 1) +:+ ". " +:+ step)) /\
    heap (world (summary r w)) !! r = Some t.
Proof.
  intros H. exists (imap step_line (steps t)).
  rewrite (summary_Some _ _ _ H). split; [reflexivity|].
  split; [apply length_imap|]. split; [|exact H].
  intros i step Hi. rewrite list_lookup_imap, Hi. cbn.
  unfold step_line. now rewrite Nat.add_1_r.
Qed.

Lemma summary_numbers_steps_in_order_witness :
  heap sample_world_run !! 0 = Some sample_task_run /\
  exists lines : list string,
    summary 0 sample_world_run
    = mkRes [] sample_world_run (Ret (String.concat newline lines)) /\
    length lines = length (steps sample_task_run) /\
    (forall i step,
        steps sample_task_run !! i = Some step ->
        lines !! i = Some (string_of_nat (i + 1) +:+ ". " +:+ step)) /\
    heap (world (summary 0 sample_world_run)) !! 0 = Some sample_task_run.
Proof.
  split; [reflexivity|].
  apply (summary_numbers_steps_in_order sample_world_run 0 sample_task_run);
    reflexivity.
Defined.

(** ** The toggle-guarded pipeline helpers *)

Lemma bind_gets {A B} (f : World -> A) (k : A -> M B) w :
  (gets f ≫= k) w = k (f w) w.
Proof. unfold mbind, M_bind, bind, gets. cbn. apply Res_eta. Qed.

Lemma bind_mret {A B} (a : A) (k : A -> M B) w : (mret a ≫= k) w = k a w.
Proof. unfold mbind, M_bind, bind, mret, M_ret, ret. cbn. apply Res_eta. Qed.

Lemma record_then {A} r msg (k : M A) w t :
  heap w !! r = Some t ->
  (recordStep r msg;; k) w =
  k (set_heap (<[r := set_steps (steps t ++ [msg]) t]> (heap w)) w).
Proof.
  intros H. rewrite (bind_Ret _ _ _ _ _ _ (recordStep_Some _ msg _ _ H)).
  apply Res_eta.
Qed.

(** C5: each toggle-guarded helper consults the process-wide settings.
    With [Elixir.config.sourcemaps] falsy [writeSourceMaps] returns a
    pass-through transform and records nothing, and so do [autoPrefix]
    with [Elixir.config.css.autoprefix.enabled] falsy and [minify] with
    [Elixir.inProduction] falsy; with the toggle truthy each records its
    step ('Writing Source Maps', 'Autoprefixing CSS', 'Applying
    Minification') and returns what the external plugin builds. *)
Theorem toggle_guarded_helpers w r t :
  heap w !! r = Some t ->
  let recorded msg :=
    set_heap (<[r := set_steps (steps t ++ [msg]) t]> (heap w)) w in
  (truthy (sourcemaps (config w)) = false ->
   writeSourceMaps r w = mkRes [] w (Ret PassThrough)) /\
  (truthy (sourcemaps (config w)) = true ->
   writeSourceMaps r w
   = mkRes [] (recorded "Writing Source Maps") (Ret (SourcemapsWrite "."))) /\
  (truthy (enabled (css_autoprefix (config w))) = false ->
   autoPrefix r w = mkRes [] w (Ret PassThrough)) /\
  (truthy (enabled (css_autoprefix (config w))) = true ->
   autoPrefix r w
   = mkRes [] (recorded "Autoprefixing CSS")
           (Ret (Autoprefixer (options (css_autoprefix (config w)))))) /\
  (truthy (inProduction w) = false ->
   minify r w = mkRes [] w (Ret PassThrough)) /\
  (truthy (inProduction w) = true ->
   minify r w
   = mkRes [] (recorded "Applying Minification") (Ret (Minifier (output t)))).
Proof.
  intros H recorded.
  repeat split; intros Hc.
  - unfold writeSourceMaps. now rewrite bind_gets, Hc.
  - unfold writeSourceMaps. rewrite bind_gets, Hc. cbn [negb].
    now rewrite (record_then _ _ _ _ _ H).
  - unfold autoPrefix. now rewrite bind_gets, Hc.
  - unfold autoPrefix. rewrite bind_gets, Hc. cbn [negb].
    now rewrite (record_then _ _ _ _ _ H), bind_gets.
  - unfold minify. now rewrite bind_gets, Hc.
  - unfold minify. rewrite bind_gets, Hc. cbn [negb].
    rewrite (record_then _ _ _ _ _ H).
    erewrite bind_Ret by (apply get_Some; cbn; eapply lookup_updated, H).
    reflexivity.
Qed.

Lemma toggle_guarded_helpers_witness :
  heap sample_world !! 0 = Some sample_task /\
  writeSourceMaps 0 sample_world
  = mkRes [] (set_heap [set_steps ["Writing Source Maps"] sample_task]
                       sample_world)
          (Ret (SourcemapsWrite ".")) /\
  minify 0 sample_world = mkRes [] sample_world (Ret PassThrough).
Proof.
  split; [reflexivity|].
  destruct (toggle_guarded_helpers sample_world 0 sample_task eq_refl)
    as (_ & Hwrite & _ & _ & Hminify & _).
  split; [apply Hwrite | apply Hminify]; reflexivity.
Defined.

(** ** Declaration: the constructor, [describe] and [register] *)

Lemma insert_snoc (h : list Task) t t' : <[length h := t']> (h ++ [t]) = h ++ [t'].
Proof. induction h as [|x h IH]; simpl; [reflexivity | f_equal; exact IH]. Qed.

Lemma lookup_snoc (h : list Task) t : (h ++ [t]) !! length h = Some t.
Proof. induction h as [|x h IH]; [reflexivity | exact IH]. Qed.

Lemma bind_alloc {B} t (k : ref -> M B) w :
  (alloc t ≫= k) w = k (length (heap w)) (set_heap (heap w ++ [t]) w).
Proof. unfold mbind, M_bind, bind, alloc. cbn. apply Res_eta. Qed.

Lemma register_eq r w :
  register r w = mkRes [] (set_tasks (tasks w ++ [r]) w) (Ret r).
Proof. reflexivity. Qed.

Lemma describe_Some r d w t :
  heap w !! r = Some t ->
  describe r d w =
  mkRes [] (set_tasks (tasks w ++ [r])
              (set_heap (<[r := set_definition d t]> (heap w)) w)) (Ret r).
Proof.
  intros H. unfold describe.
  now rewrite (bind_Ret _ _ _ _ _ _ (update_Some _ _ _ _ H)), register_eq.
Qed.

Lemma constructor_eq cls nm description ps w :
  constructor cls nm description ps w =
  let this := length (heap w) in
  let t0 := fresh_task cls nm ps in
  let described d :=
    mkRes [] (set_tasks (tasks w ++ [this])
                (set_heap (heap w ++ [set_definition d t0]) w)) (Ret this) in
  if truthy (cls_gulpTask cls) then described (cls_gulpTask cls)
  else if truthy description then described description
  else mkRes [] (set_heap (heap w ++ [t0]) w) (Ret this).
Proof.
  unfold constructor. rewrite bind_alloc. cbn zeta.
  assert (Hd : forall d,
    (describe (length (heap w)) d;; mret (length (heap w)))
      (set_heap (heap w ++ [fresh_task cls nm ps]) w)
    = mkRes [] (set_tasks (tasks w ++ [length (heap w)])
                  (set_heap (heap w ++ [set_definition d (fresh_task cls nm ps)])
                            w)) (Ret (length (heap w)))).
  { intros d. erewrite bind_Ret
      by (apply describe_Some; cbn; apply lookup_snoc).
    cbn. now rewrite insert_snoc. }
  destruct (truthy (cls_gulpTask cls)); [apply Hd|].
  destruct (truthy description); [apply Hd | reflexivity].
Qed.



(** ** [toGulp] *)

Lemma has_true g nm : has g nm = true <-> is_Some (g !! nm).
Proof. unfold has. apply bool_decide_eq_true. Qed.

Lemma has_false g nm : has g nm = false <-> g !! nm = None.
Proof.
  unfold has. rewrite bool_decide_eq_false. split.
  - intros Hn. destruct (g !! nm) eqn:E; [|reflexivity].
    exfalso. apply Hn. now exists g0.
  - intros -> [x Hx]. discriminate.
Qed.

Lemma toGulp_Some r w t :
  heap w !! r = Some t ->
  toGulp r w =
  if has (gulp_tasks w) (name t) then mkRes [] w (Ret tt)
  else mkRes [EvGulpTask (name t)]
         (set_gulp_tasks (<[name t := RunTasksNamed (name t)]> (gulp_tasks w)) w)
         (Ret tt).
Proof.
  intros H. unfold toGulp.
  rewrite (bind_Ret _ _ _ _ _ _ (get_Some _ _ _ H)), bind_gets.
  cbn. now destruct (has (gulp_tasks w) (name t)).
Qed.

Lemma toGulp_None r w :
  heap w !! r = None -> toGulp r w = mkRes [] w (Throw Dangling).
Proof.
  intros H. unfold toGulp. now rewrite (bind_Throw _ _ _ _ _ _ (get_None _ _ H)).
Qed.

Lemma forEach_cons {A B} (f : A -> M B) x l w :
  forEach f (x :: l) w = (f x;; forEach f l) w.
Proof. reflexivity. Qed.

Lemma registrations_app nm evs evs' :
  registrations nm (evs ++ evs') = registrations nm evs + registrations nm evs'.
Proof. unfold registrations. now rewrite List.filter_app, length_app. Qed.

Lemma toGulp_all_registrations nm rs :
  forall w,
    registrations nm (events (forEach toGulp rs w)) <= 1 /\
    (is_Some (gulp_tasks w !! nm) ->
     registrations nm (events (forEach toGulp rs w)) = 0).
Proof.
  induction rs as [|r rs IH]; intros w; [cbn; split; [lia | reflexivity]|].
  rewrite forEach_cons.
  destruct (heap w !! r) as [t|] eqn:Hr.
  - pose proof (toGulp_Some _ _ _ Hr) as Hg.
    destruct (has (gulp_tasks w) (name t)) eqn:Hhas.
    + rewrite (bind_Ret _ _ _ _ _ _ Hg). cbn. apply IH.
    + rewrite (bind_Ret _ _ _ _ _ _ Hg). cbn [events].
      rewrite registrations_app.
      set (w' := set_gulp_tasks _ w).
      destruct (IH w') as [Hle Hzero].
      apply has_false in Hhas.
      destruct (String.eqb (name t) nm) eqn:Hnm.
      * apply String.eqb_eq in Hnm. subst nm.
        rewrite Hzero by (subst w'; cbn; rewrite lookup_insert_eq; eauto).
        unfold registrations. cbn. rewrite String.eqb_refl. cbn.
        split; [lia|]. intros [x Hx]. congruence.
      * unfold registrations at 1 3. cbn. rewrite Hnm. cbn.
        split; [exact Hle|]. intros Hreg. apply Hzero. subst w'. cbn.
        apply String.eqb_neq in Hnm. now rewrite lookup_insert_ne.
  - rewrite (bind_Throw _ _ _ _ _ _ (toGulp_None _ _ Hr)). cbn.
    split; [lia | reflexivity].
Qed.

(** C9: when [gulp.tasks] already has the task's name, [toGulp] returns
    without registering anything; hence however many instances share a
    name and however often [toGulp] is called, [gulp.task] is called at
    most once per name, and never for a name that was there before. *)
Theorem toGulp_registers_once_per_name w r t :
  heap w !! r = Some t ->
  (is_Some (gulp_tasks w !! name t) -> toGulp r w = mkRes [] w (Ret tt)) /\
  (gulp_tasks w !! name t = None ->
   events (toGulp r w) = [EvGulpTask (name t)] /\
   gulp_tasks (world (toGulp r w)) !! name t = Some (RunTasksNamed (name t))) /\
  (forall nm rs w',
      registrations nm (events (forEach toGulp rs w')) <= 1 /\
      (is_Some (gulp_tasks w' !! nm) ->
       registrations nm (events (forEach toGulp rs w')) = 0)).
Proof.
  intros H. rewrite (toGulp_Some _ _ _ H). split; [|split].
  - intros Hreg. apply has_true in Hreg. now rewrite Hreg.
  - intros Hnone. apply has_false in Hnone. rewrite Hnone. cbn.
    split; [reflexivity | apply lookup_insert_eq].
  - intros nm rs w'. apply toGulp_all_registrations.
Qed.

Lemma toGulp_registers_once_per_name_witness :
  heap sample_world_two !! 1 = Some sample_task /\
  events (toGulp 1 sample_world_two) = [EvGulpTask "sass"] /\
  registrations "sass" (events (forEach toGulp [0; 1; 0] sample_world_two)) <= 1.
Proof.
  split; [reflexivity|].
  destruct (toGulp_registers_once_per_name sample_world_two 1 sample_task
              eq_refl) as (_ & Hfirst & Hall).
  split; [apply Hfirst; reflexivity | apply Hall].
Defined.

(** ** The closure registered by [toGulp] *)

Lemma contains_In l x : contains l x = true <-> In x l.
Proof.
  unfold contains. rewrite existsb_exists. split.
  - intros (y & Hy & Hxy). apply String.eqb_eq in Hxy. now subst.
  - intros Hx. exists x. split; [exact Hx | apply String.eqb_refl].
Qed.

Lemma intersection_go_grows result array other :
  length result <= length (intersection_go result array other).
Proof.
  revert result. induction array as [|item rest IH]; intros result; cbn; [lia|].
  destruct (contains result item); [apply IH|].
  destruct (contains other item); [|apply IH].
  etransitivity; [|apply IH]. rewrite length_app. lia.
Qed.

Lemma intersection_empty array other :
  length (intersection array other) = 0 <->
  forall x, In x array -> ~ In x other.
Proof.
  unfold intersection. induction array as [|item rest IH]; cbn.
  - split; [intros _ x [] | reflexivity].
  - destruct (contains other item) eqn:Hc.
    + split.
      * intros Hz.
        pose proof (intersection_go_grows ([] ++ [item]) rest other) as Hg.
        cbn in Hg. lia.
      * intros Hnone. exfalso. apply (Hnone item); [now left|].
        now apply contains_In.
    + rewrite IH. split.
      * intros Hrest x [<- | Hx]; [|now apply Hrest].
        intros Hin. apply contains_In in Hin. congruence.
      * intros Hall x Hx. apply Hall. now right.
Qed.

(** The test of the closure: some command-line task argument is the
    task's own name, ['watch'] or ['tdd']. *)
Lemma shouldRunAllTasksWithName_spec args nm :
  shouldRunAllTasksWithName args nm <> 0 <->
  In nm args \/ In "watch" args \/ In "tdd" args.
Proof.
  unfold shouldRunAllTasksWithName. rewrite intersection_empty. split.
  - intros Hsome.
    destruct (in_dec String.string_dec nm args) as [|Hn]; [now left|].
    destruct (in_dec String.string_dec "watch" args) as [|Hw]; [now right; left|].
    destruct (in_dec String.string_dec "tdd" args) as [|Ht]; [now right; right|].
    exfalso. apply Hsome. intros x Hx [<- | [<- | [<- | []]]]; contradiction.
  - intros Hin Hnone.
    destruct Hin as [Hin | [Hin | Hin]]; apply (Hnone _ Hin); cbn; tauto.
Qed.

(** The head of a filtered list is the first element that passes. *)
Lemma filter_head {A} (P : A -> bool) (l : list A) x rest :
  List.filter P l = x :: rest ->
  exists pre post,
    l = pre ++ x :: post /\ P x = true /\ forall y, In y pre -> P y = false.
Proof.
  induction l as [|a l IH]; cbn; [discriminate|].
  destruct (P a) eqn:Ha.
  - intros [= -> _]. exists [], l. repeat split; [exact Ha | intros y []].
  - intros Hf. destruct (IH Hf) as (pre & post & -> & Hx & Hpre).
    exists (a :: pre), post. repeat split; [exact Hx|].
    intros y [<- | Hy]; [exact Ha | now apply Hpre].
Qed.

Lemma filter_twice {A} (P Q : A -> bool) (l : list A) :
  List.filter Q (List.filter P l) = List.filter (fun x => P x && Q x) l.
Proof.
  induction l as [|a l IH]; cbn; [reflexivity|].
  destruct (P a); cbn; [destruct (Q a)|]; now rewrite IH.
Qed.

Lemma has_name_true h nm x :
  has_name h nm x = true <-> exists t, h !! x = Some t /\ name t = nm.
Proof.
  unfold has_name. destruct (h !! x) as [t|]; split.
  - intros E. apply String.eqb_eq in E. now exists t.
  - intros (t' & [= <-] & E). now apply String.eqb_eq.
  - discriminate.
  - intros (t' & [=] & _).
Qed.

Lemma invoke_all code nm w :
  shouldRunAllTasksWithName (env_args w) nm <> 0 ->
  invoke code (RunTasksNamed nm) w
  = (forEach (run code) (byName_of w nm);; mret VUndefined) w.
Proof.
  intros Hall. unfold invoke. rewrite bind_gets.
  destruct (Nat.eqb_spec (shouldRunAllTasksWithName (env_args w) nm) 0) as [E|_];
    [contradiction|].
  cbn [negb]. unfold byName. now rewrite bind_gets.
Qed.

Lemma invoke_first code nm w :
  shouldRunAllTasksWithName (env_args w) nm = 0 ->
  invoke code (RunTasksNamed nm) w
  = match findIncompleteByName_of w nm with
    | first :: _ => run code first w
    | [] => mkRes [] w (Throw TypeError)
    end.
Proof.
  intros Hnone. unfold invoke. rewrite bind_gets, Hnone. cbn [Nat.eqb negb].
  unfold findIncompleteByName. rewrite bind_gets.
  now destruct (findIncompleteByName_of w nm).
Qed.

(** Under [gulp watch] both instances named ['sass'] are run, in registry
    order; on a plain invocation only the first incomplete one is. *)
Example invoke_watch_runs_both :
  List.filter is_call
    (events (invoke sample_code (RunTasksNamed "sass") sample_world_watch))
  = [EvCall 0 0 [VGlobal ElixirPlugins; VGlobal ElixirConfig];
     EvCall 0 1 [VGlobal ElixirPlugins; VGlobal ElixirConfig]].
Proof. reflexivity. Qed.

Example invoke_plain_runs_first :
  List.filter is_call
    (events (invoke sample_code (RunTasksNamed "sass") sample_world_two))
  = [EvCall 0 0 [VGlobal ElixirPlugins; VGlobal ElixirConfig]].
Proof. reflexivity. Qed.

Example invoke_twice_runs_second :
  List.filter is_call
    (events (invoke sample_code (RunTasksNamed "sass")
               (world (invoke sample_code (RunTasksNamed "sass")
                         sample_world_two))))
  = [EvCall 0 1 [VGlobal ElixirPlugins; VGlobal ElixirConfig]].
Proof. reflexivity. Qed.

(** ** [run] *)

Lemma call_fun code f this args w :
  call code (VFun f) this args w
  = mkRes (EvCall f this args :: events (code f this args w))
          (world (code f this args w)) (outcome (code f this args w)).
Proof. reflexivity. Qed.

(** A task of the [Task] class itself has no watcher hook to call. *)
Lemma run_registerWatchers_none code r w t :
  heap w !! r = Some t -> truthy (registerWatchers t) = false ->
  run_registerWatchers code r w = mkRes [] w (Ret (registerWatchers t)).
Proof.
  intros H Hf. unfold run_registerWatchers.
  now rewrite (bind_Ret _ _ _ _ _ _ (get_Some _ _ _ H)), Hf.
Qed.

Lemma log_undefined r w t :
  heap w !! r = Some t ->
  log r VUndefined w
  = mkRes (if truthy (isRunningAllTasks w) then []
           else [EvLogTask r (summary_of (steps t))]) w (Ret VUndefined).
Proof.
  intros H. unfold log. cbn [truthy]. rewrite bind_gets.
  destruct (truthy (isRunningAllTasks w)); cbn [negb]; [reflexivity|].
  unfold log_task, get, emit, mbind, M_bind, bind, mret, M_ret, ret.
  rewrite H. reflexivity.
Qed.

(** A run whose hook and definition return. *)
Lemma run_returns code r w evs0 w0 v0 t0 f evs1 w1 v t1 :
  run_registerWatchers code r w = mkRes evs0 w0 (Ret v0) ->
  heap w0 !! r = Some t0 ->
  definition t0 = VFun f ->
  code f r [VGlobal ElixirPlugins; VGlobal ElixirConfig] w0
  = mkRes evs1 w1 (Ret v) ->
  heap w1 !! r = Some t1 ->
  run code r w
  = mkRes (evs0 ++ EvCall f r [VGlobal ElixirPlugins; VGlobal ElixirConfig]
             :: evs1 ++
             (if truthy (isRunningAllTasks w1) then []
              else [EvLogTask r (summary_of (steps t1))]))
          (set_heap (<[r := set_isComplete true t1]> (heap w1)) w1)
          (Ret v).
Proof.
  intros Hhook Ht0 Hdef Hbody Ht1. unfold run.
  rewrite (bind_Ret _ _ _ _ _ _ Hhook).
  match goal with
  | |- context [events (?m w0)] =>
      assert (Hrest : m w0
        = mkRes (EvCall f r [VGlobal ElixirPlugins; VGlobal ElixirConfig]
                   :: evs1 ++
                   (if truthy (isRunningAllTasks w1) then []
                    else [EvLogTask r (summary_of (steps t1))]))
                (set_heap (<[r := set_isComplete true t1]> (heap w1)) w1)
                (Ret v))
  end.
  { rewrite (bind_Ret _ _ _ _ _ _ (get_Some _ _ _ Ht0)), Hdef. cbn [app].
    assert (Hcall :
      call code (VFun f) r [VGlobal ElixirPlugins; VGlobal ElixirConfig] w0
      = mkRes (EvCall f r [VGlobal ElixirPlugins; VGlobal ElixirConfig] :: evs1)
              w1 (Ret v)) by (now rewrite call_fun, Hbody).
    rewrite (bind_Ret _ _ _ _ _ _ Hcall).
    rewrite (bind_Ret _ _ _ _ _ _ (update_Some _ _ _ _ Ht1)). cbn [app].
    assert (Hlog := log_undefined r
      (set_heap (<[r := set_isComplete true t1]> (heap w1)) w1)
      (set_isComplete true t1) (lookup_updated _ _ _ _ Ht1)).
    rewrite (bind_Ret _ _ _ _ _ _ Hlog). cbn. now rewrite app_nil_r. }
  now rewrite Hrest.
Qed.

(** When the definition throws, the exception leaves [run] before the
    task is marked complete or logged. *)
Lemma run_throws code r w evs0 w0 v0 t0 f evs1 w1 e :
  run_registerWatchers code r w = mkRes evs0 w0 (Ret v0) ->
  heap w0 !! r = Some t0 ->
  definition t0 = VFun f ->
  code f r [VGlobal ElixirPlugins; VGlobal ElixirConfig] w0
  = mkRes evs1 w1 (Throw e) ->
  run code r w
  = mkRes (evs0 ++ EvCall f r [VGlobal ElixirPlugins; VGlobal ElixirConfig]
             :: evs1) w1 (Throw e).
Proof.
  intros Hhook Ht0 Hdef Hbody. unfold run.
  rewrite (bind_Ret _ _ _ _ _ _ Hhook).
  rewrite (bind_Ret _ _ _ _ _ _ (get_Some _ _ _ Ht0)), Hdef.
  erewrite bind_Throw by (rewrite call_fun, Hbody; reflexivity).
  reflexivity.
Qed.


(** A run that returns has called the task's definition and left the
    task complete. *)
Lemma run_Ret_inv code r w evs w1 v :
  run code r w = mkRes evs w1 (Ret v) ->
  (exists f, In (EvCall f r [VGlobal ElixirPlugins; VGlobal ElixirConfig]) evs) /\
  exists t1, heap w1 !! r = Some t1 /\ isComplete t1 = true.
Proof.
  intros H. pose proof H as H0. unfold run in H.
  destruct (run_registerWatchers code r w) as [evs0 w0 [v0|e0]] eqn:Hhook;
    [|rewrite (bind_Throw _ _ _ _ _ _ Hhook) in H; discriminate].
  rewrite (bind_Ret _ _ _ _ _ _ Hhook) in H.
  destruct (heap w0 !! r) as [t0|] eqn:Ht0;
    [|rewrite (bind_Throw _ _ _ _ _ _ (get_None _ _ Ht0)) in H; discriminate].
  rewrite (bind_Ret _ _ _ _ _ _ (get_Some _ _ _ Ht0)) in H.
  destruct (definition t0) as [| | | | | | | |f|] eqn:Hdef;
    try (rewrite (bind_Throw _ _ _ [] w0 TypeError eq_refl) in H; discriminate).
  destruct (code f r [VGlobal ElixirPlugins; VGlobal ElixirConfig] w0)
    as [evs1 w1' [v1|e1]] eqn:Hbody.
  - destruct (heap w1' !! r) as [t1|] eqn:Ht1.
    + rewrite (run_returns _ _ _ _ _ _ _ _ _ _ _ _ Hhook Ht0 Hdef Hbody Ht1) in H0.
      injection H0 as <- <- <-. split.
      * exists f. apply in_or_app. right. now left.
      * eexists. split; [cbn; eapply lookup_updated, Ht1 | reflexivity].
    + assert (Hcall :
        call code (VFun f) r [VGlobal ElixirPlugins; VGlobal ElixirConfig] w0
        = mkRes (EvCall f r [VGlobal ElixirPlugins; VGlobal ElixirConfig] :: evs1)
                w1' (Ret v1)) by (now rewrite call_fun, Hbody).
      rewrite (bind_Ret _ _ _ _ _ _ Hcall) in H.
      rewrite (bind_Throw _ _ _ _ _ _ (update_None _ _ _ Ht1)) in H.
      discriminate.
  - assert (Hcall :
      call code (VFun f) r [VGlobal ElixirPlugins; VGlobal ElixirConfig] w0
      = mkRes (EvCall f r [VGlobal ElixirPlugins; VGlobal ElixirConfig] :: evs1)
              w1' (Throw e1)) by (now rewrite call_fun, Hbody).
    rewrite (bind_Throw _ _ _ _ _ _ Hcall) in H. discriminate.
Qed.

(** Runs that all return are what [forEach] over the tasks does. *)
Lemma runs_return_forEach code rs w evs w' :
  runs_return code rs w evs w' ->
  forEach (run code) rs w = mkRes evs w' (Ret tt).
Proof.
  induction 1 as [w | r rs w evs w1 v evs' w2 Hrun _ IH]; [reflexivity|].
  rewrite forEach_cons, (bind_Ret _ _ _ _ _ _ Hrun). now rewrite IH.
Qed.

(** Among the events of such runs are the calls of the definitions, one
    per task and in the order of the tasks. *)
Lemma runs_return_calls code rs w evs w' :
  runs_return code rs w evs w' ->
  exists fs, length fs = length rs /\ definition_calls fs rs `sublist_of` evs.
Proof.
  induction 1 as [w | r rs w evs w1 v evs' w2 Hrun _ (fs & Hlen & Hsub)].
  - exists []. split; [reflexivity | constructor].
  - destruct (run_Ret_inv _ _ _ _ _ _ Hrun) as [[f Hin] _].
    apply in_split in Hin as (pre & post & ->).
    exists (f :: fs). split; [cbn; now rewrite Hlen|].
    change (definition_calls (f :: fs) (r :: rs))
      with ([EvCall f r [VGlobal ElixirPlugins; VGlobal ElixirConfig]]
              ++ definition_calls fs rs).
    apply sublist_app; [|exact Hsub].
    apply sublist_inserts_l, sublist_skip, sublist_nil_l.
Qed.

(** C3: the closure [toGulp] registers under the task's name, when
    invoked, runs every registered task with that name, in registry
    order, exactly when the command-line task arguments include the
    name, ['watch'] or ['tdd']: as long as each run returns, the
    definition of every one of these tasks is called, in that order, and
    the closure returns [undefined] in the world the last run left.
    Otherwise it runs only the first registered task with that name that
    is not complete (and raises a [TypeError] when there is none): its
    effect and result are those of that one run, which calls the task's
    definition and leaves it complete. *)
Theorem gulp_closure_dispatch code w r t :
  heap w !! r = Some t ->
  gulp_tasks w !! name t = None ->
  let nm := name t in
  gulp_tasks (world (toGulp r w)) !! nm = Some (RunTasksNamed nm) /\
  forall w',
    let args := env_args w' in
    let fn := RunTasksNamed nm in
    (In nm args \/ In "watch" args \/ In "tdd" args ->
     (forall x, In x (byName_of w' nm) <->
                In x (tasks w') /\ exists tx, heap w' !! x = Some tx /\ name tx = nm) /\
     forall evs w'',
       runs_return code (byName_of w' nm) w' evs w'' ->
       invoke code fn w' = mkRes evs w'' (Ret VUndefined) /\
       exists fs,
         length fs = length (byName_of w' nm) /\
         definition_calls fs (byName_of w' nm) `sublist_of` evs) /\
    (~ (In nm args \/ In "watch" args \/ In "tdd" args) ->
     match findIncompleteByName_of w' nm with
     | [] => invoke code fn w' = mkRes [] w' (Throw TypeError)
     | first :: _ =>
         invoke code fn w' = run code first w' /\
         (forall evs w'' v,
             invoke code fn w' = mkRes evs w'' (Ret v) ->
             (exists f, In (EvCall f first
                              [VGlobal ElixirPlugins; VGlobal ElixirConfig]) evs) /\
             exists tf', heap w'' !! first = Some tf' /\ isComplete tf' = true) /\
         exists pre post tf,
           tasks w' = pre ++ first :: post /\
           heap w' !! first = Some tf /\ name tf = nm /\ isComplete tf = false /\
           forall y ty, In y pre -> heap w' !! y = Some ty -> name ty = nm ->
                        isComplete ty = true
     end).
Proof.
  intros H Hnew nm. split.
  { rewrite (toGulp_Some _ _ _ H). apply has_false in Hnew. rewrite Hnew.
    cbn. apply lookup_insert_eq. }
  intros w' args fn. split.
  - intros Hargs. apply shouldRunAllTasksWithName_spec in Hargs. split.
    { intros x. unfold byName_of. rewrite List.filter_In, has_name_true.
      reflexivity. }
    intros evs w'' Hruns. split; [|exact (runs_return_calls _ _ _ _ _ Hruns)].
    subst fn. rewrite (invoke_all _ _ _ Hargs).
    now rewrite (bind_Ret _ _ _ _ _ _ (runs_return_forEach _ _ _ _ _ Hruns)),
      app_nil_r.
  - intros Hargs.
    assert (Hz : shouldRunAllTasksWithName args nm = 0).
    { destruct (Nat.eq_dec (shouldRunAllTasksWithName args nm) 0) as [E|E];
        [exact E|].
      exfalso. now apply Hargs, shouldRunAllTasksWithName_spec. }
    pose proof (invoke_first code nm w' Hz) as Hi. fold fn in Hi.
    destruct (findIncompleteByName_of w' nm) as [|first rest] eqn:Hf;
      [exact Hi|].
    split; [exact Hi|]. split.
    { intros evs w'' v Hret. rewrite Hi in Hret.
      exact (run_Ret_inv _ _ _ _ _ _ Hret). }
    unfold findIncompleteByName_of, byName_of in Hf. rewrite filter_twice in Hf.
    apply filter_head in Hf as (pre & post & Ht & Hfirst & Hpre).
    apply andb_true_iff in Hfirst as [Hn Hc].
    apply has_name_true in Hn as (tf & Htf & Hnm).
    exists pre, post, tf. repeat split; try assumption.
    + unfold is_incomplete in Hc. rewrite Htf in Hc.
      now apply negb_true_iff in Hc.
    + intros y ty Hy Hty Hname. specialize (Hpre y Hy).
      unfold has_name, is_incomplete in Hpre. rewrite Hty in Hpre.
      apply String.eqb_eq in Hname. rewrite Hname in Hpre. cbn in Hpre.
      now apply negb_false_iff in Hpre.
Qed.

Lemma gulp_closure_dispatch_witness :
  heap sample_world_two !! 0 = Some sample_task /\
  gulp_tasks sample_world_two !! "sass" = None /\
  gulp_tasks (world (toGulp 0 sample_world_two)) !! "sass"
  = Some (RunTasksNamed "sass") /\
  (exists evs w'',
      runs_return sample_code (byName_of sample_world_watch "sass")
                  sample_world_watch evs w'' /\
      invoke sample_code (RunTasksNamed "sass") sample_world_watch
      = mkRes evs w'' (Ret VUndefined) /\
      exists fs,
        length fs = length (byName_of sample_world_watch "sass") /\
        definition_calls fs (byName_of sample_world_watch "sass")
          `sublist_of` evs) /\
  invoke sample_code (RunTasksNamed "sass") sample_world_two
  = run sample_code 0 sample_world_two.
Proof.
  split; [reflexivity|]. split; [reflexivity|].
  destruct (gulp_closure_dispatch sample_code sample_world_two 0 sample_task
              eq_refl eq_refl) as [Hreg Hinv].
  split; [exact Hreg|]. split.
  - destruct (Hinv sample_world_watch) as [Hall _].
    destruct (Hall (or_intror (or_introl (or_introl eq_refl)))) as [_ Hruns].
    pose (done := set_isComplete true (set_steps ["Compiling Sass"] sample_task)).
    exists [EvCall 0 0 [VGlobal ElixirPlugins; VGlobal ElixirConfig];
            EvCall 0 1 [VGlobal ElixirPlugins; VGlobal ElixirConfig]],
           (set_heap [done; done] sample_world_watch).
    assert (Hr : runs_return sample_code (byName_of sample_world_watch "sass")
                   sample_world_watch
                   [EvCall 0 0 [VGlobal ElixirPlugins; VGlobal ElixirConfig];
                    EvCall 0 1 [VGlobal ElixirPlugins; VGlobal ElixirConfig]]
                   (set_heap [done; done] sample_world_watch)).
    { apply (runs_return_cons sample_code 0 [1] sample_world_watch
               [EvCall 0 0 [VGlobal ElixirPlugins; VGlobal ElixirConfig]]
               (set_heap [done; sample_task] sample_world_watch) (VObj 100)
               [EvCall 0 1 [VGlobal ElixirPlugins; VGlobal ElixirConfig]]
               (set_heap [done; done] sample_world_watch)); [reflexivity|].
      apply (runs_return_cons sample_code 1 [] _
               [EvCall 0 1 [VGlobal ElixirPlugins; VGlobal ElixirConfig]]
               (set_heap [done; done] sample_world_watch) (VObj 100)
               [] (set_heap [done; done] sample_world_watch)); [reflexivity|].
      apply runs_return_nil. }
    split; [exact Hr | exact (Hruns _ _ Hr)].
  - destruct (Hinv sample_world_two) as [_ Hfirst].
    assert (Hargs : ~ (In "sass" [] \/ In "watch" [] \/ In "tdd" []))
      by (intros [[] | [[] | []]]).
    apply Hfirst in Hargs.
    change (findIncompleteByName_of sample_world_two (name sample_task))
      with [0; 1] in Hargs.
    exact (proj1 Hargs).
Defined.









(** * Further properties *)

(** ** Construction *)

Lemma lookup_snoc_old (h : list Task) t r t' :
  h !! r = Some t' -> (h ++ [t]) !! r = Some t'.
Proof. intros H. rewrite lookup_app_l; [exact H | now apply lookup_lt_Some in H]. Qed.

(** X1: [new Task(...)] returns a fresh reference, leaves every existing
    instance and the host registry as they were, and the new instance
    starts incomplete, without watchers, without steps and without a
    category, with [src] and [output] taken from the path pair when one
    is given. *)
Theorem constructor_fresh_instance cls nm description ps w :
  let res := constructor cls nm description ps w in
  let this := length (heap w) in
  outcome res = Ret this /\
  length (heap (world res)) = S (length (heap w)) /\
  (forall r t, heap w !! r = Some t -> heap (world res) !! r = Some t) /\
  gulp_tasks (world res) = gulp_tasks w /\
  exists t,
    heap (world res) !! this = Some t /\
    name t = nm /\ watchers t = [] /\ steps t = [] /\ isComplete t = false /\
    category t = VUndefined /\
    paths t = ps /\ src t = gp_src <$> ps /\ output t = gp_output <$> ps.
Proof.
  cbn zeta. rewrite constructor_eq. cbn zeta.
  destruct (truthy (cls_gulpTask cls)); [|destruct (truthy description)];
    cbn; (split; [reflexivity|]);
    (split; [rewrite length_app; cbn; lia|]);
    (split; [intros r t; apply lookup_snoc_old|]);
    (split; [reflexivity|]);
    (eexists; split; [apply lookup_snoc | repeat split]).
Qed.

(** X2: the constructor registers the new task exactly when the class
    has a [gulpTask] or a truthy description is passed; a subclass's
    [gulpTask] takes precedence over the description, and with neither
    the task has no definition and [Elixir.tasks] is unchanged. *)
Theorem constructor_registers_iff_described cls nm description ps w :
  let res := constructor cls nm description ps w in
  let this := length (heap w) in
  tasks (world res)
  = tasks w ++ (if truthy (cls_gulpTask cls) || truthy description
                then [this] else []) /\
  exists t,
    heap (world res) !! this = Some t /\
    definition t
    = (if truthy (cls_gulpTask cls) then cls_gulpTask cls
       else if truthy description then description else VUndefined).
Proof.
  cbn zeta. rewrite constructor_eq. cbn zeta.
  destruct (truthy (cls_gulpTask cls)); [|destruct (truthy description)]; cbn.
  - split; [reflexivity|]. eexists. split; [apply lookup_snoc | reflexivity].
  - split; [reflexivity|]. eexists. split; [apply lookup_snoc | reflexivity].
  - split; [now rewrite app_nil_r|].
    eexists. split; [apply lookup_snoc | reflexivity].
Qed.

(** ** Runs that do not complete *)



(** X4: when the definition of a task without watcher hook throws, [run]
    passes the exception on right after the call: the world is the one
    the definition left, nothing is logged, and a task the definition
    left incomplete is still incomplete. *)
Theorem run_definition_throws code r w t f evs1 w1 e :
  heap w !! r = Some t ->
  truthy (registerWatchers t) = false ->
  definition t = VFun f ->
  code f r [VGlobal ElixirPlugins; VGlobal ElixirConfig] w
  = mkRes evs1 w1 (Throw e) ->
  run code r w
  = mkRes (EvCall f r [VGlobal ElixirPlugins; VGlobal ElixirConfig] :: evs1)
          w1 (Throw e) /\
  (forall t1, heap w1 !! r = Some t1 -> isComplete t1 = false ->
              is_incomplete (heap (world (run code r w))) r = true).
Proof.
  intros Ht Hhook Hdef Hbody.
  rewrite (run_throws code r w [] w _ t f evs1 w1 e
             (run_registerWatchers_none code _ _ _ Ht Hhook) Ht Hdef Hbody).
  split; [reflexivity|].
  intros t1 Ht1 Hinc. cbn. unfold is_incomplete. now rewrite Ht1, Hinc.
Qed.

Lemma run_definition_throws_witness :
  heap failing_world !! 0 = Some failing_task /\
  outcome (run failing_code 0 failing_world) = Throw (Thrown (VStr "syntax error")) /\
  is_incomplete (heap (world (run failing_code 0 failing_world))) 0 = true.
Proof.
  split; [reflexivity|].
  destruct (run_definition_throws failing_code 0 failing_world failing_task 1
              [] (set_heap [set_steps ["Compiling Sass"] failing_task; hooked_task]
                           failing_world)
              (Thrown (VStr "syntax error")) eq_refl eq_refl eq_refl eq_refl)
    as [Hrun Hinc].
  split; [now rewrite Hrun|].
  exact (Hinc _ eq_refl eq_refl).
Defined.

(** X5: a watcher hook supplied by a subclass is called first, with the
    task as receiver and no arguments; when it throws, the definition is
    never called and the task is not marked complete. *)
Theorem run_hook_throws code r w t h evs0 w0 e :
  heap w !! r = Some t ->
  registerWatchers t = VFun h ->
  code h r [] w = mkRes evs0 w0 (Throw e) ->
  run code r w = mkRes (EvCall h r [] :: evs0) w0 (Throw e).
Proof.
  intros Ht Hh Hbody. unfold run.
  erewrite bind_Throw; [reflexivity|].
  unfold run_registerWatchers.
  rewrite (bind_Ret _ _ _ _ _ _ (get_Some _ _ _ Ht)), Hh. cbn [truthy app].
  now rewrite call_fun, Hbody.
Qed.

Lemma run_hook_throws_witness :
  heap failing_world !! 1 = Some hooked_task /\
  run failing_code 1 failing_world
  = mkRes [EvCall 2 1 []] failing_world (Throw (Thrown (VStr "no watcher"))).
Proof.
  split; [reflexivity|].
  apply (run_hook_throws failing_code 1 failing_world hooked_task 2 []
           failing_world); reflexivity.
Defined.

(** X6: a task whose run returned is complete, so no later plain
    invocation picks it again: it is not among the incomplete tasks of
    any name. *)
Theorem run_completes_task code r w evs0 w0 v0 t0 f evs1 w1 v t1 :
  run_registerWatchers code r w = mkRes evs0 w0 (Ret v0) ->
  heap w0 !! r = Some t0 ->
  definition t0 = VFun f ->
  code f r [VGlobal ElixirPlugins; VGlobal ElixirConfig] w0
  = mkRes evs1 w1 (Ret v) ->
  heap w1 !! r = Some t1 ->
  forall nm, ~ In r (findIncompleteByName_of (world (run code r w)) nm).
Proof.
  intros Hhook Ht0 Hdef Hbody Ht1 nm.
  rewrite (run_returns _ _ _ _ _ _ _ _ _ _ _ _ Hhook Ht0 Hdef Hbody Ht1).
  cbn [world]. unfold findIncompleteByName_of. rewrite List.filter_In.
  intros [_ Hinc]. unfold is_incomplete in Hinc. cbn [heap set_heap] in Hinc.
  now rewrite (lookup_updated _ _ _ _ Ht1) in Hinc.
Qed.

Lemma run_completes_task_witness :
  findIncompleteByName_of sample_world "sass" = [0] /\
  ~ In 0 (findIncompleteByName_of (world (run sample_code 0 sample_world)) "sass").
Proof.
  split; [reflexivity|].
  apply (run_completes_task sample_code 0 sample_world
           [] sample_world VUndefined sample_task 0
           [] (set_heap [set_steps ["Compiling Sass"] sample_task] sample_world)
           (VObj 100) (set_steps ["Compiling Sass"] sample_task));
    reflexivity.
Defined.

(** ** The pipeline helpers *)

Lemma set_heap_same w r t :
  heap w !! r = Some t -> set_heap (<[r := t]> (heap w)) w = w.
Proof. intros H. rewrite list_insert_id by exact H. now destruct w. Qed.

Lemma steps_extended_refl t : steps_extended t t.
Proof. repeat split. now left. Qed.

Lemma steps_extended_record t msg :
  steps_extended t (set_steps (steps t ++ [msg]) t).
Proof. repeat split. right. now exists msg. Qed.

Lemma concat_Some r w t :
  heap w !! r = Some t ->
  concat r w
  = mkRes [] (set_heap (<[r := set_steps (steps t ++ ["Concatenating Files"]) t]>
                          (heap w)) w)
          (match output t with
           | Some out => Ret (Concat (basename out))
           | None => Throw TypeError
           end).
Proof.
  intros H. unfold concat. rewrite (record_then _ _ _ _ _ H).
  erewrite bind_Ret by (apply get_Some; cbn; eapply lookup_updated, H).
  cbn. now destruct (output t).
Qed.

Lemma saveAs_Some r w t :
  heap w !! r = Some t ->
  saveAs r w
  = mkRes [] (set_heap (<[r := set_steps (steps t ++ ["Saving to Destination"]) t]>
                          (heap w)) w)
          (match output t with
           | Some out => Ret (Dest (baseDir out))
           | None => Throw TypeError
           end).
Proof.
  intros H. unfold saveAs. rewrite (record_then _ _ _ _ _ H).
  erewrite bind_Ret by (apply get_Some; cbn; eapply lookup_updated, H).
  cbn. now destruct (output t).
Qed.

(** X7: [concat] and [saveAs] read the output of the path pair.  For a
    task declared with paths they return the plugin stream for the
    output's file name, respectively its directory; for a task declared
    without paths they raise a [TypeError], and in both cases the step
    has been recorded by then. *)
Theorem concat_saveAs_need_output w r t :
  heap w !! r = Some t ->
  (forall out, output t = Some out ->
     outcome (concat r w) = Ret (Concat (basename out)) /\
     outcome (saveAs r w) = Ret (Dest (baseDir out))) /\
  (output t = None ->
     outcome (concat r w) = Throw TypeError /\
     outcome (saveAs r w) = Throw TypeError) /\
  heap (world (concat r w)) !! r
  = Some (set_steps (steps t ++ ["Concatenating Files"]) t) /\
  heap (world (saveAs r w)) !! r
  = Some (set_steps (steps t ++ ["Saving to Destination"]) t).
Proof.
  intros H. rewrite (concat_Some _ _ _ H), (saveAs_Some _ _ _ H). cbn.
  split; [intros out ->; now split|].
  split; [intros ->; now split|].
  split; eapply lookup_updated, H.
Qed.

Lemma concat_saveAs_need_output_witness :
  heap pathless_world !! 0 = Some pathless_task /\
  concat 0 pathless_world
  = mkRes [] (set_heap [set_steps ["Concatenating Files"] pathless_task]
                       pathless_world) (Throw TypeError) /\
  outcome (saveAs 0 sample_world) = Ret (Dest "public/css").
Proof.
  split; [reflexivity|]. split; [reflexivity|].
  destruct (concat_saveAs_need_output sample_world 0 sample_task eq_refl)
    as (Hout & _).
  exact (proj2 (Hout _ eq_refl)).
Defined.

(** X8: every pipeline helper, whatever the toggles and whether or not
    it fails, changes nothing but the steps of its own task, to which it
    adds at most one entry at the end: earlier steps, the other fields,
    the other tasks and the process-wide state stay as they were. *)
Theorem helpers_extend_steps_only w r t :
  heap w !! r = Some t ->
  forall helper,
    In helper [initSourceMaps; writeSourceMaps; autoPrefix; minify;
               concat; saveAs] ->
    exists t',
      world (helper r w) = set_heap (<[r := t']> (heap w)) w /\
      steps_extended t t'.
Proof.
  intros H helper Hin.
  assert (Hsame : exists t', w = set_heap (<[r := t']> (heap w)) w /\
                             steps_extended t t').
  { exists t. split; [symmetry; now apply set_heap_same
                     | apply steps_extended_refl]. }
  assert (Hrec : forall msg, exists t',
             set_heap (<[r := set_steps (steps t ++ [msg]) t]> (heap w)) w
             = set_heap (<[r := t']> (heap w)) w /\ steps_extended t t').
  { intros msg. eexists. split; [reflexivity | apply steps_extended_record]. }
  cbn in Hin.
  destruct Hin as [<- | [<- | [<- | [<- | [<- | [<- | []]]]]]].
  - unfold initSourceMaps. rewrite bind_gets.
    now destruct (truthy (sourcemaps (config w))).
  - unfold writeSourceMaps. rewrite bind_gets.
    destruct (truthy (sourcemaps (config w))); cbn [negb]; [|exact Hsame].
    rewrite (record_then _ _ _ _ _ H). apply Hrec.
  - unfold autoPrefix. rewrite bind_gets.
    destruct (truthy (enabled (css_autoprefix (config w)))); cbn [negb];
      [|exact Hsame].
    rewrite (record_then _ _ _ _ _ H), bind_gets. apply Hrec.
  - unfold minify. rewrite bind_gets.
    destruct (truthy (inProduction w)); cbn [negb]; [|exact Hsame].
    rewrite (record_then _ _ _ _ _ H).
    erewrite bind_Ret by (apply get_Some; cbn; eapply lookup_updated, H).
    apply Hrec.
  - rewrite (concat_Some _ _ _ H). apply Hrec.
  - rewrite (saveAs_Some _ _ _ H). apply Hrec.
Qed.

Lemma helpers_extend_steps_only_witness :
  heap sample_world !! 0 = Some sample_task /\
  exists t',
    world (autoPrefix 0 sample_world)
    = set_heap (<[0 := t']> (heap sample_world)) sample_world /\
    steps_extended sample_task t'.
Proof.
  split; [reflexivity|].
  apply (helpers_extend_steps_only sample_world 0 sample_task eq_refl).
  cbn. tauto.
Defined.

(** ** [toGulp] over the host registry *)

Lemma forEach_toGulp_grows rs :
  forall w,
    let w' := world (forEach toGulp rs w) in
    heap w' = heap w /\ tasks w' = tasks w /\
    forall nm fn, gulp_tasks w !! nm = Some fn -> gulp_tasks w' !! nm = Some fn.
Proof.
  induction rs as [|r rs IH]; intros w; cbn zeta; [now cbn|].
  rewrite forEach_cons.
  destruct (heap w !! r) as [t|] eqn:Hr.
  - pose proof (toGulp_Some _ _ _ Hr) as Hg.
    destruct (has (gulp_tasks w) (name t)) eqn:Hhas;
      rewrite (bind_Ret _ _ _ _ _ _ Hg); cbn [world]; [apply IH|].
    destruct (IH (set_gulp_tasks (<[name t := RunTasksNamed (name t)]>
                                    (gulp_tasks w)) w)) as (Hh & Ht & Hg').
    split; [exact Hh|]. split; [exact Ht|].
    intros nm fn Hnm. apply Hg'. cbn. apply has_false in Hhas.
    rewrite lookup_insert_ne; [exact Hnm | congruence].
  - rewrite (bind_Throw _ _ _ _ _ _ (toGulp_None _ _ Hr)). now cbn.
Qed.

(** X9: [toGulp] never replaces or removes a gulp task, and touches
    neither the task instances nor [Elixir.tasks]: over any sequence of
    [toGulp] calls every entry of [gulp.tasks] stays bound to the closure
    it had, and the only calls made are calls of [gulp.task] (no
    definition is run, nothing is logged). *)
Theorem toGulp_keeps_existing_tasks rs w :
  let res := forEach toGulp rs w in
  heap (world res) = heap w /\ tasks (world res) = tasks w /\
  (forall nm fn, gulp_tasks w !! nm = Some fn ->
                 gulp_tasks (world res) !! nm = Some fn) /\
  Forall (fun ev => exists nm, ev = EvGulpTask nm) (events res).
Proof.
  cbn zeta. destruct (forEach_toGulp_grows rs w) as (Hheap & Htasks & Hgrow).
  repeat split; try assumption.
  clear. revert w. induction rs as [|r rs IH]; intros w; [constructor|].
  rewrite forEach_cons.
  destruct (heap w !! r) as [t|] eqn:Hr.
  - pose proof (toGulp_Some _ _ _ Hr) as Hg.
    destruct (has (gulp_tasks w) (name t));
      rewrite (bind_Ret _ _ _ _ _ _ Hg); cbn [events app]; [apply IH|].
    constructor; [now exists (name t) | apply IH].
  - rewrite (bind_Throw _ _ _ _ _ _ (toGulp_None _ _ Hr)). constructor.
Qed.

(** X10: calling [toGulp] on each of a list of tasks succeeds and leaves
    a gulp task under the name of every one of them; a name that had no
    gulp task before is bound to the closure that runs the tasks of that
    name. *)
Theorem toGulp_covers_every_name rs :
  forall w,
    (forall r, In r rs -> is_Some (heap w !! r)) ->
    let res := forEach toGulp rs w in
    outcome res = Ret tt /\
    forall r t, In r rs -> heap w !! r = Some t ->
      is_Some (gulp_tasks (world res) !! name t) /\
      (gulp_tasks w !! name t = None ->
       gulp_tasks (world res) !! name t = Some (RunTasksNamed (name t))).
Proof.
  induction rs as [|r rs IH]; intros w Hall; cbn zeta;
    [split; [reflexivity | intros r t []]|].
  rewrite forEach_cons.
  destruct (Hall r (or_introl eq_refl)) as [t Hr].
  set (w1 := if has (gulp_tasks w) (name t) then w
             else set_gulp_tasks (<[name t := RunTasksNamed (name t)]>
                                    (gulp_tasks w)) w).
  assert (Hg : exists evs, toGulp r w = mkRes evs w1 (Ret tt)).
  { rewrite (toGulp_Some _ _ _ Hr). subst w1.
    destruct (has (gulp_tasks w) (name t)); eexists; reflexivity. }
  destruct Hg as [evs Hg]. rewrite (bind_Ret _ _ _ _ _ _ Hg).
  assert (Hheap : heap w1 = heap w)
    by (subst w1; now destruct (has (gulp_tasks w) (name t))).
  assert (Hkeep : forall nm fn, gulp_tasks w !! nm = Some fn ->
                                gulp_tasks w1 !! nm = Some fn).
  { subst w1. intros nm fn Hnm.
    destruct (has (gulp_tasks w) (name t)) eqn:Hhas; [exact Hnm|]. cbn.
    apply has_false in Hhas. rewrite lookup_insert_ne; [exact Hnm | congruence]. }
  assert (Hnew : gulp_tasks w !! name t = None ->
                 gulp_tasks w1 !! name t = Some (RunTasksNamed (name t))).
  { subst w1. intros Hnone. apply has_false in Hnone. rewrite Hnone. cbn.
    apply lookup_insert_eq. }
  assert (Hother : forall nm, nm <> name t ->
                              gulp_tasks w1 !! nm = gulp_tasks w !! nm).
  { subst w1. intros nm Hne.
    destruct (has (gulp_tasks w) (name t)); [reflexivity|]. cbn.
    now rewrite lookup_insert_ne. }
  destruct (IH w1) as [Hout Hnames].
  { intros r' Hr'. rewrite Hheap. apply Hall. now right. }
  pose proof (forEach_toGulp_grows rs w1) as (_ & _ & Hgrow).
  cbn [world outcome]. split; [exact Hout|].
  intros r' t' Hin Hr'.
  destruct (String.string_dec (name t') (name t)) as [Heq | Hne].
  - rewrite Heq. split.
    + destruct (gulp_tasks w !! name t) as [fn|] eqn:Hold.
      * exists fn. apply Hgrow. now apply Hkeep.
      * eexists. apply Hgrow. now apply Hnew.
    + intros Hnone. apply Hgrow. now apply Hnew.
  - destruct Hin as [<- | Hin].
    { rewrite Hr in Hr'. injection Hr' as <-. contradiction. }
    rewrite <- Hheap in Hr'. destruct (Hnames r' t' Hin Hr') as [Hsome Hfresh].
    split; [exact Hsome|]. intros Hnone. apply Hfresh.
    now rewrite Hother.
Qed.

Lemma toGulp_covers_every_name_witness :
  (forall r, In r [0; 1] -> is_Some (heap sample_world_two !! r)) /\
  outcome (forEach toGulp [0; 1] sample_world_two) = Ret tt /\
  gulp_tasks (world (forEach toGulp [0; 1] sample_world_two)) !! "sass"
  = Some (RunTasksNamed "sass").
Proof.
  assert (Hall : forall r, In r [0; 1] -> is_Some (heap sample_world_two !! r)).
  { intros r [<- | [<- | []]]; eexists; reflexivity. }
  split; [exact Hall|].
  destruct (toGulp_covers_every_name [0; 1] sample_world_two Hall)
    as [Hout Hnames].
  split; [exact Hout|].
  exact (proj2 (Hnames 1 sample_task (or_intror (or_introl eq_refl)) eq_refl)
               eq_refl).
Defined.

(** ** The registry *)

Lemma has_name_definition h r t d nm x :
  h !! r = Some t ->
  has_name (<[r := set_definition d t]> h) nm x = has_name h nm x.
Proof.
  intros H. unfold has_name, ref in *. destruct (Nat.eq_dec r x) as [<- | Hne].
  - now rewrite (lookup_updated _ _ _ _ H), H.
  - now rewrite list_lookup_insert_ne.
Qed.

(** X11: [register] does not look for duplicates: every [describe] adds
    one more entry for the task to [Elixir.tasks], so a task described
    again is listed, and found by name, once more than before. *)
Theorem describe_adds_an_entry w r t d :
  heap w !! r = Some t ->
  let w' := world (describe r d w) in
  count_occ Nat.eq_dec (tasks w') r = S (count_occ Nat.eq_dec (tasks w) r) /\
  count_occ Nat.eq_dec (byName_of w' (name t)) r
  = S (count_occ Nat.eq_dec (byName_of w (name t)) r).
Proof.
  intros H. cbn zeta. rewrite (describe_Some _ _ _ _ H). cbn [world].
  unfold byName_of. cbn [tasks heap set_tasks set_heap]. unfold ref in *.
  split.
  - rewrite count_occ_app, (count_occ_cons_eq _ _ (eq_refl r)).
    cbn [count_occ]. apply Nat.add_1_r.
  - rewrite List.filter_app, count_occ_app.
    rewrite (List.filter_ext _ _
               (fun x => has_name_definition _ _ _ d (name t) x H)).
    cbn [List.filter].
    assert (Hn : has_name (heap w) (name t) r = true)
      by (apply has_name_true; now exists t).
    rewrite (has_name_definition _ _ _ d (name t) r H), Hn.
    rewrite (count_occ_cons_eq _ _ (eq_refl r)). cbn [count_occ].
    apply Nat.add_1_r.
Qed.

Lemma describe_adds_an_entry_witness :
  heap sample_world !! 0 = Some sample_task /\
  count_occ Nat.eq_dec
    (byName_of (world (describe 0 (VFun 0) sample_world)) "sass") 0
  = S (count_occ Nat.eq_dec (byName_of sample_world "sass") 0).
Proof.
  split; [reflexivity|].
  exact (proj2 (describe_adds_an_entry sample_world 0 sample_task (VFun 0)
                  eq_refl)).
Defined.

(** ** Watchers *)

Lemma array_concat_watched ws regex :
  truthy regex = true -> array_concat ws regex = ws ++ watched regex.
Proof. intros H. unfold watched. rewrite H. now destruct regex. Qed.

Lemma watch_watchers r regex cat w t :
  heap w !! r = Some t ->
  heap (world (watch r regex cat w)) !! r
  = Some (set_category (js_or cat (VStr "default"))
            (set_watchers (watchers t ++ watched regex) t)).
Proof.
  intros H. rewrite (watch_Some _ _ _ _ _ H). cbn [world heap set_heap].
  rewrite (lookup_updated _ _ _ _ H). f_equal.
  destruct (truthy regex) eqn:Hre.
  - now rewrite (array_concat_watched _ _ Hre).
  - unfold watched. rewrite Hre, app_nil_r. now destruct t.
Qed.

(** X12: [watch] keeps the patterns it already has and appends the new
    ones in order: a string adds one pattern, an array its elements, a
    falsy value or an empty array nothing; [hasWatchers()] afterwards
    tells whether the list is non-empty. *)
Theorem watch_appends_patterns w r t regex cat :
  heap w !! r = Some t ->
  let w' := world (watch r regex cat w) in
  (exists t', heap w' !! r = Some t' /\
              watchers t' = watchers t ++ watched regex) /\
  outcome (hasWatchers r w')
  = Ret (negb (Nat.eqb (length (watchers t) + length (watched regex)) 0)) /\
  (forall s, regex = VStr s -> s <> EmptyString -> watched regex = [VStr s]) /\
  (forall elems, regex = VArr elems -> watched regex = elems) /\
  (truthy regex = false -> watched regex = []).
Proof.
  intros H. cbn zeta. pose proof (watch_watchers r regex cat w t H) as Hw.
  split; [eexists; split; [exact Hw | reflexivity]|].
  split.
  { unfold hasWatchers. rewrite (bind_Ret _ _ _ _ _ _ (get_Some _ _ _ Hw)).
    cbn. rewrite length_app.
    now destruct (length (watchers t) + length (watched regex)). }
  split.
  { intros s -> Hs. unfold watched. cbn. destruct s; [contradiction | reflexivity]. }
  split; [now intros elems -> | intros Hf; unfold watched; now rewrite Hf].
Qed.

Lemma watch_appends_patterns_witness :
  heap sample_world !! 0 = Some sample_task /\
  outcome (hasWatchers 0 (world (watch 0 (VArr []) VUndefined sample_world)))
  = Ret false /\
  outcome (hasWatchers 0
             (world (watch 0 (VArr [VStr "a.scss"; VStr "b.scss"]) VUndefined
                       sample_world)))
  = Ret true.
Proof.
  split; [reflexivity|].
  split.
  - exact (proj1 (proj2 (watch_appends_patterns sample_world 0 sample_task
                           (VArr []) VUndefined eq_refl))).
  - exact (proj1 (proj2 (watch_appends_patterns sample_world 0 sample_task
                           (VArr [VStr "a.scss"; VStr "b.scss"]) VUndefined
                           eq_refl))).
Defined.

(** X13: the category is assigned on every call: a second [watch]
    without a (truthy) category puts the category back to ['default'],
    whatever the first call had set, while the patterns of both calls
    are kept, in call order. *)
Theorem watch_again_resets_category w r t regex1 cat1 regex2 cat2 :
  heap w !! r = Some t ->
  truthy cat2 = false ->
  exists t',
    heap (world (watch r regex2 cat2 (world (watch r regex1 cat1 w)))) !! r
    = Some t' /\
    category t' = VStr "default" /\
    watchers t' = watchers t ++ watched regex1 ++ watched regex2.
Proof.
  intros H Hc.
  pose proof (watch_watchers r regex1 cat1 w t H) as H1.
  pose proof (watch_watchers r regex2 cat2 _ _ H1) as H2.
  eexists. split; [exact H2|]. cbn. unfold js_or. rewrite Hc.
  split; [reflexivity | now rewrite <- app_assoc].
Qed.

Lemma watch_again_resets_category_witness :
  heap sample_world !! 0 = Some sample_task /\
  exists t',
    heap (world (watch 0 (VStr "b.scss") VUndefined
                   (world (watch 0 (VStr "a.scss") (VStr "tdd") sample_world))))
      !! 0 = Some t' /\
    category t' = VStr "default" /\
    watchers t'
    = watchers sample_task ++ watched (VStr "a.scss") ++ watched (VStr "b.scss").
Proof.
  split; [reflexivity|].
  apply (watch_again_resets_category sample_world 0 sample_task); reflexivity.
Defined.

(** ** [summary] after [recordStep] *)

(** X14: recording a step adds exactly one line to the summary, at the
    end and numbered with the new number of steps; the lines before it
    are the summary as it was. *)
Theorem summary_after_recordStep w r t msg :
  heap w !! r = Some t ->
  outcome (summary r (world (recordStep r msg w)))
  = Ret (match steps t with
         | [] => "1. " +:+ msg
         | _ :: _ => summary_of (steps t) +:+ newline
                     +:+ string_of_nat (S (length (steps t))) +:+ ". " +:+ msg
         end).
Proof.
  intros H. rewrite (recordStep_Some _ _ _ _ H). cbn [world].
  erewrite summary_Some by (cbn; eapply lookup_updated, H).
  cbn [outcome steps set_steps]. now rewrite summary_of_snoc.
Qed.

Lemma summary_after_recordStep_witness :
  heap sample_world_run !! 0 = Some sample_task_run /\
  outcome (summary 0 (world (recordStep 0 "Writing Source Maps" sample_world_run)))
  = Ret ("1. Compiling Sass" +:+ newline +:+ "2. Saving to Destination"
         +:+ newline +:+ "3. Writing Source Maps").
Proof.
  split; [reflexivity|].
  exact (summary_after_recordStep sample_world_run 0 sample_task_run
           "Writing Source Maps" eq_refl).
Defined.

(** ** The exclusion pattern of [ignore] *)

Lemma replace_absent pat rep s : occurs pat s = false -> replace pat rep s = s.
Proof.
  induction s as [|c s IH]; cbn [occurs]; intros H;
    apply orb_false_iff in H as [Hhere Hlater].
  - cbn. now rewrite Hhere.
  - rewrite (replace_later _ _ _ _ Hhere). f_equal. now apply IH.
Qed.

Lemma replace_length pat rep s :
  String.length (replace pat rep s) + String.length pat
  = String.length s + String.length rep \/
  replace pat rep s = s.
Proof.
  assert (Hhere : forall x, starts_with pat x = true ->
    String.length (replace pat rep x) + String.length pat
    = String.length x + String.length rep).
  { intros x Hp. rewrite (replace_here _ _ _ Hp), length_append.
    pose proof (f_equal String.length (starts_with_inv _ _ Hp)) as E.
    rewrite length_append in E. lia. }
  induction s as [|c s IH].
  - destruct (starts_with pat "") eqn:Hp; [|right; cbn; now rewrite Hp].
    left. now apply Hhere.
  - destruct (starts_with pat (String c s)) eqn:Hp.
    + left. now apply Hhere.
    + rewrite (replace_later _ _ _ _ Hp).
      destruct IH as [IH | IH]; [left; cbn; lia | right; now rewrite IH].
Qed.

(** X15: the pattern [ignore(p)] appends always starts with ['!./'],
    and it is either ['!./' + p] unchanged or that string with two
    characters less. *)
Theorem ignore_pattern_shape w r t p :
  heap w !! r = Some t ->
  exists pat,
    heap (world (ignore r p w)) !! r
    = Some (set_watchers (watchers t ++ [VStr pat]) t) /\
    starts_with "!./" pat = true /\
    (pat = "!./" +:+ p \/ String.length pat = String.length p + 1).
Proof.
  intros H. rewrite (ignore_Some _ _ _ _ H). cbn [world heap set_heap].
  eexists. split; [eapply lookup_updated, H|]. split.
  - destruct (starts_with "./" p) eqn:Hp.
    + rewrite (ignore_pattern_dot_slash _ Hp), (starts_with_inv _ _ Hp).
      reflexivity.
    + now rewrite (ignore_pattern_other _ Hp).
  - destruct (replace_length "././" "./" ("!./" +:+ p)) as [Hlen | Hsame];
      [right | now left].
    rewrite length_append in Hlen. cbn [String.length] in Hlen. lia.
Qed.

Lemma ignore_pattern_shape_witness :
  heap sample_world !! 0 = Some sample_task /\
  exists pat,
    heap (world (ignore 0 "./vendor" sample_world)) !! 0
    = Some (set_watchers (watchers sample_task ++ [VStr pat]) sample_task) /\
    starts_with "!./" pat = true /\
    (pat = "!./" +:+ "./vendor" \/
     String.length pat = String.length "./vendor" + 1).
Proof.
  split; [reflexivity|].
  apply (ignore_pattern_shape sample_world 0 sample_task); reflexivity.
Defined.

(** X16: a leading ['./'] makes no difference: for a path [q] such that
    ['./' + q] contains no ['././'], [ignore('./' + q)] and [ignore(q)]
    have the same effect, and the pattern appended is ['!./' + q]. *)
Theorem ignore_leading_dot_slash w r t q :
  heap w !! r = Some t ->
  occurs "././" ("./" +:+ q) = false ->
  ignore r ("./" +:+ q) w = ignore r q w /\
  heap (world (ignore r q w)) !! r
  = Some (set_watchers (watchers t ++ [VStr ("!./" +:+ q)]) t).
Proof.
  intros H Hocc. rewrite !(ignore_Some _ _ _ _ H).
  assert (Hq : replace "././" "./" ("!./" +:+ q) = "!./" +:+ q).
  { change ("!./" +:+ q) with (String "!" ("./" +:+ q)).
    rewrite replace_later by reflexivity. now rewrite (replace_absent _ _ _ Hocc). }
  rewrite (ignore_pattern_dot_slash ("./" +:+ q)) by reflexivity.
  rewrite Hq. split; [reflexivity|]. cbn. eapply lookup_updated, H.
Qed.

Lemma ignore_leading_dot_slash_witness :
  heap sample_world !! 0 = Some sample_task /\
  occurs "././" ("./" +:+ "node_modules") = false /\
  ignore 0 ("./" +:+ "node_modules") sample_world
  = ignore 0 "node_modules" sample_world.
Proof.
  split; [reflexivity|]. split; [reflexivity|].
  exact (proj1 (ignore_leading_dot_slash sample_world 0 sample_task
                  "node_modules" eq_refl eq_refl)).
Defined.

(** ** [ucName] *)

Lemma upper_idempotent c : upper (upper c) = upper c.
Proof. destruct c as [[] [] [] [] [] [] [] []]; reflexivity. Qed.

(** X17: for a name that starts with an ASCII character, [ucName()]
    returns the name with that character in upper case and the rest
    untouched, so the length is the same and upper-casing the result
    again changes nothing; the task is left as it was. *)
Theorem ucName_capitalises_first w r t c rest :
  heap w !! r = Some t ->
  name t = String c rest ->
  nat_of_ascii c < 128 ->
  exists u,
    ucName r w = mkRes [] w (Ret u) /\
    u = String (upper c) rest /\
    String.length u = String.length (name t) /\
    ucName_of u = u.
Proof.
  intros H Hname _. eexists. split.
  { unfold ucName. rewrite (bind_Ret _ _ _ _ _ _ (get_Some _ _ _ H)).
    reflexivity. }
  rewrite Hname. unfold ucName_of. cbn.
  replace (String.substring 0 0 rest) with EmptyString by (now destruct rest).
  cbn. split; [reflexivity|]. split; [reflexivity|].
  rewrite upper_idempotent. now destruct rest.
Qed.

Lemma ucName_capitalises_first_witness :
  heap sample_world !! 0 = Some sample_task /\
  nat_of_ascii "s" < 128 /\
  exists u,
    ucName 0 sample_world = mkRes [] sample_world (Ret u) /\
    u = String (upper "s") "ass" /\
    String.length u = String.length (name sample_task) /\
    ucName_of u = u.
Proof.
  split; [reflexivity|]. split; [apply Nat.ltb_lt; reflexivity|].
  apply (ucName_capitalises_first sample_world 0 sample_task "s" "ass");
    [reflexivity | reflexivity | apply Nat.ltb_lt; reflexivity].
Defined.

Example ucName_sass : ucName_of "sass" = "Sass".
Proof. reflexivity. Qed.

(** ** Invoking the gulp closure *)

(** X18: for a name under which no task is registered the closure does
    nothing and returns when the arguments ask for all tasks of the name
    (the name itself, ['watch'] or ['tdd']), and raises a [TypeError]
    otherwise. *)
Theorem invoke_unknown_name code nm w :
  byName_of w nm = [] ->
  (In nm (env_args w) \/ In "watch" (env_args w) \/ In "tdd" (env_args w) ->
   invoke code (RunTasksNamed nm) w = mkRes [] w (Ret VUndefined)) /\
  (~ (In nm (env_args w) \/ In "watch" (env_args w) \/ In "tdd" (env_args w)) ->
   invoke code (RunTasksNamed nm) w = mkRes [] w (Throw TypeError)).
Proof.
  intros Hnone. split; intros Hargs.
  - apply shouldRunAllTasksWithName_spec in Hargs.
    rewrite (invoke_all _ _ _ Hargs), Hnone. reflexivity.
  - assert (Hz : shouldRunAllTasksWithName (env_args w) nm = 0).
    { destruct (Nat.eq_dec (shouldRunAllTasksWithName (env_args w) nm) 0)
        as [E|E]; [exact E|].
      exfalso. now apply Hargs, shouldRunAllTasksWithName_spec. }
    rewrite (invoke_first _ _ _ Hz). unfold findIncompleteByName_of.
    now rewrite Hnone.
Qed.

Lemma invoke_unknown_name_witness :
  byName_of sample_world_watch "scripts" = [] /\
  invoke sample_code (RunTasksNamed "scripts") sample_world_watch
  = mkRes [] sample_world_watch (Ret VUndefined) /\
  invoke sample_code (RunTasksNamed "scripts") sample_world
  = mkRes [] sample_world (Throw TypeError).
Proof.
  split; [reflexivity|].
  split.
  - apply (proj1 (invoke_unknown_name sample_code "scripts" sample_world_watch
                    eq_refl)).
    right. left. now left.
  - apply (proj2 (invoke_unknown_name sample_code "scripts" sample_world
                    eq_refl)).
    intros [[] | [[] | []]].
Defined.



Lemma forEach_throws {A B} (f : A -> M B) x l w evs w' e :
  f x w = mkRes evs w' (Throw e) ->
  forEach f (x :: l) w = mkRes evs w' (Throw e).
Proof. intros H. rewrite forEach_cons. now apply bind_Throw. Qed.

(** X20: when all tasks of a name are run, a definition that throws
    ends the invocation: the exception leaves the closure and the tasks
    after the failing one are not run. *)
Theorem invoke_all_stops_at_throw code nm w r rest evs w' e :
  In nm (env_args w) \/ In "watch" (env_args w) \/ In "tdd" (env_args w) ->
  byName_of w nm = r :: rest ->
  run code r w = mkRes evs w' (Throw e) ->
  invoke code (RunTasksNamed nm) w = mkRes evs w' (Throw e).
Proof.
  intros Hargs Hnames Hrun. apply shouldRunAllTasksWithName_spec in Hargs.
  rewrite (invoke_all _ _ _ Hargs), Hnames.
  apply bind_Throw. now apply forEach_throws.
Qed.

Lemma invoke_all_stops_at_throw_witness :
  byName_of failing_world_watch "sass" = [0; 1] /\
  List.filter is_call
    (events (invoke failing_code (RunTasksNamed "sass") failing_world_watch))
  = [EvCall 1 0 [VGlobal ElixirPlugins; VGlobal ElixirConfig]].
Proof.
  split; [reflexivity|].
  rewrite (invoke_all_stops_at_throw failing_code "sass" failing_world_watch
             0 [1] _ _ _ (or_intror (or_introl (or_introl eq_refl)))
             eq_refl eq_refl).
  reflexivity.
Defined.

(** X21: when all tasks of a name are run, the closure never returns
    what the definitions return: its result is [undefined], unless an
    exception leaves it. *)
Theorem invoke_all_returns_undefined code nm w :
  In nm (env_args w) \/ In "watch" (env_args w) \/ In "tdd" (env_args w) ->
  outcome (invoke code (RunTasksNamed nm) w) = Ret VUndefined \/
  exists e, outcome (invoke code (RunTasksNamed nm) w) = Throw e.
Proof.
  intros Hargs. apply shouldRunAllTasksWithName_spec in Hargs.
  rewrite (invoke_all _ _ _ Hargs).
  destruct (forEach (run code) (byName_of w nm) w) as [evs w' [[]|e]] eqn:Hall.
  - left. now rewrite (bind_Ret _ _ _ _ _ _ Hall).
  - right. exists e. now rewrite (bind_Throw _ _ _ _ _ _ Hall).
Qed.

Lemma invoke_all_returns_undefined_witness :
  outcome (run sample_code 0 sample_world_watch) = Ret (VObj 100) /\
  (outcome (invoke sample_code (RunTasksNamed "sass") sample_world_watch)
   = Ret VUndefined \/
   exists e,
     outcome (invoke sample_code (RunTasksNamed "sass") sample_world_watch)
     = Throw e).
Proof.
  split; [reflexivity|].
  apply (invoke_all_returns_undefined sample_code "sass" sample_world_watch).
  right. left. now left.
Defined.
